(** * Foco Timer: the session state machine of [App.tsx]

    A shallow embedding of the React component [App] of the repository, in
    its two variants:

    - [AppTsx]  : [src/src/App.tsx]      (default focus 50 min, Tone.js note),
    - [Part000] : [src/unnamed/part_000] (default focus 30 min, [Audio] beep).

    JavaScript numbers are modelled by [Z]: every number the component
    computes is an integer (products, sums, [parseInt], [Math.round]), and on
    integers below 2^53 in magnitude the double-precision arithmetic of
    JavaScript is exact.  The clock [Date.now()] is an explicit argument
    [now] (milliseconds since the epoch) of every function that reads it. *)

From Stdlib Require Import ZArith List String Ascii Bool Lia.
Import ListNotations.

Local Open Scope string_scope.
Local Open Scope Z_scope.

(** ** JavaScript primitives used by the component *)

Module Js.

(** [x || d] on a number read from a parsed object: [undefined], [null]
    (both [None]) and [0] are falsy. *)
Definition orZ (x : option Z) (d : Z) : Z :=
  match x with
  | Some n => if n =? 0 then d else n
  | None => d
  end.

(** [x || d] on a string: [undefined], [null] and the empty string are falsy. *)
Definition orS (x : option string) (d : string) : string :=
  match x with
  | Some s => if String.eqb s "" then d else s
  | None => d
  end.

(** Truthiness of a [number | null]. *)
Definition truthy (x : option Z) : bool :=
  match x with
  | Some n => negb (n =? 0)
  | None => false
  end.

(** [Math.round(ms / 1000)] for an integer [ms]: the nearest integer, a
    half rounded towards plus infinity, that is the floor of
    [ms / 1000 + 1/2]. *)
Definition roundSeconds (ms : Z) : Z := (ms + 500) / 1000.

(** Strings are sequences of bytes, a character outside ASCII by its UTF-8
    encoding.  [isSpace]: the ASCII white space [parseInt] skips (space, tab,
    line feed, vertical tab, form feed, carriage return). *)
Definition isSpace (c : ascii) : bool :=
  let n := N_of_ascii c in
  (n =? 32)%N || ((9 <=? n)%N && (n <=? 13)%N).

(** The first byte of the encoding of a white space outside ASCII. *)
Definition isSpaceLead (c : ascii) : bool :=
  let n := N_of_ascii c in
  (n =? 194)%N || (n =? 225)%N || (n =? 226)%N || (n =? 227)%N || (n =? 239)%N.

(** U+00A0, encoded C2 A0. *)
Definition isSpace2 (c1 c2 : ascii) : bool :=
  (N_of_ascii c1 =? 194)%N && (N_of_ascii c2 =? 160)%N.

(** U+1680, U+2000 to U+200A, U+2028, U+2029, U+202F, U+205F, U+3000 and
    U+FEFF, each encoded on three bytes. *)
Definition isSpace3 (c1 c2 c3 : ascii) : bool :=
  let a := N_of_ascii c1 in
  let b := N_of_ascii c2 in
  let c := N_of_ascii c3 in
  ((a =? 225)%N && (b =? 154)%N && (c =? 128)%N)
  || ((a =? 226)%N && (b =? 128)%N
      && (((128 <=? c)%N && (c <=? 138)%N) || (c =? 168)%N || (c =? 169)%N
          || (c =? 175)%N))
  || ((a =? 226)%N && (b =? 129)%N && (c =? 159)%N)
  || ((a =? 227)%N && (b =? 128)%N && (c =? 128)%N)
  || ((a =? 239)%N && (b =? 187)%N && (c =? 191)%N).

(** The white space and line terminators [parseInt] strips from the head. *)
Fixpoint skipSpaces (s : string) : string :=
  match s with
  | String c1 r1 =>
      if isSpace c1 then skipSpaces r1
      else if isSpaceLead c1 then
        match r1 with
        | String c2 r2 =>
            if isSpace2 c1 c2 then skipSpaces r2
            else
              match r2 with
              | String c3 r3 => if isSpace3 c1 c2 c3 then skipSpaces r3 else s
              | EmptyString => s
              end
        | EmptyString => s
        end
      else s
  | EmptyString => s
  end.

Definition digitValue (c : ascii) : option Z :=
  let n := Z.of_N (N_of_ascii c) in
  if (48 <=? n) && (n <=? 57) then Some (n - 48) else None.

(** The value of the longest prefix of decimal digits; [acc] is [None] as
    long as no digit has been read. *)
Fixpoint digits (acc : option Z) (s : string) : option Z :=
  match s with
  | String c r =>
      match digitValue c with
      | Some d =>
          digits (Some (10 * match acc with Some a => a | None => 0 end + d)) r
      | None => acc
      end
  | EmptyString => acc
  end.

(** [parseInt(s, 10)]: leading white space, an optional sign, then the
    longest run of digits; [None] is [NaN] (no digit).  [-0] is [0].  The
    result is the exact integer; [parseInt] returns it as a double, so the
    two agree when it is below 2^53 in magnitude, and the theorems about the
    text of a number carry that bound. *)
Definition parseInt (s : string) : option Z :=
  match skipSpaces s with
  | String "-" r => option_map Z.opp (digits None r)
  | String "+" r => digits None r
  | t => digits None t
  end.

(** The character of a decimal digit [d]. *)
Definition digitChar (d : Z) : ascii := ascii_of_N (Z.to_N (48 + d)).

(** The decimal digits of [n >= 0] put in front of [acc], the last digit
    first; [fuel] bounds the number of digits after the first one. *)
Fixpoint toDigits (fuel : nat) (n : Z) (acc : string) : string :=
  let acc' := String (digitChar (n mod 10)) acc in
  match fuel with
  | O => acc'
  | S fuel' => if n <? 10 then acc' else toDigits fuel' (n / 10) acc'
  end.

(** [String(n)] for an integer [n] below 10^21 in magnitude: a minus sign
    for a negative number, then the decimal digits.  From 10^21 on
    JavaScript prints the exponent notation, which this function does not:
    every theorem about it bounds its argument by 2^53.  An integer has at
    most [log2 n + 1] digits. *)
Definition toString (n : Z) : string :=
  if n <? 0
  then String "-" (toDigits (Z.to_nat (Z.log2 (- n))) (- n) "")
  else toDigits (Z.to_nat (Z.log2 n)) n "".

(** [s.padStart(2, "0")]. *)
Definition padStart2 (s : string) : string :=
  match String.length s with
  | O => "00"
  | S O => String "0" s
  | _ => s
  end.

End Js.

(** ** Data *)

Inductive Variant := AppTsx | Part000.

(** [useState(50)] in [App.tsx], [useState(30)] in the other variant; the
    same constant is the fallback of the load effect. *)
Definition defaultFocus (v : Variant) : Z :=
  match v with AppTsx => 50 | Part000 => 30 end.

Definition defaultBreak : Z := 10.

(** What the component sends to the audio backend and the console. *)
Inductive Output :=
| SynthNote                 (* Tone.Synth: triggerAttackRelease("C4", "0.5"), one note *)
| ToneMissing               (* console.warn: Tone.js is not loaded *)
| AudioPlay (loop : bool)   (* new Audio('/beep.mp3'), audio.loop = loop, play() *)
| AudioPause.               (* pause() on the element held by audioRef *)

(** The state variables of the component ([mode] and [status] are strings in
    the source), the [audioRef] of [Part000] (the element it holds, by its
    loop flag), whether [window.Tone] is defined, and the outputs so far,
    newest first. *)
Record State := mkState {
  focusDuration : Z;
  breakDuration : Z;
  mode : string;
  status : string;
  timeLeft : Z;
  completionMessage : string;
  deadline : option Z;
  isInitialized : bool;
  audioRef : option bool;
  toneLoaded : bool;
  outputs : list Output
}.

Definition setFocusDuration (x : Z) (s : State) : State :=
  mkState x (breakDuration s) (mode s) (status s) (timeLeft s)
          (completionMessage s) (deadline s) (isInitialized s) (audioRef s)
          (toneLoaded s) (outputs s).

Definition setBreakDuration (x : Z) (s : State) : State :=
  mkState (focusDuration s) x (mode s) (status s) (timeLeft s)
          (completionMessage s) (deadline s) (isInitialized s) (audioRef s)
          (toneLoaded s) (outputs s).

Definition setMode (x : string) (s : State) : State :=
  mkState (focusDuration s) (breakDuration s) x (status s) (timeLeft s)
          (completionMessage s) (deadline s) (isInitialized s) (audioRef s)
          (toneLoaded s) (outputs s).

Definition setStatus (x : string) (s : State) : State :=
  mkState (focusDuration s) (breakDuration s) (mode s) x (timeLeft s)
          (completionMessage s) (deadline s) (isInitialized s) (audioRef s)
          (toneLoaded s) (outputs s).

Definition setTimeLeft (x : Z) (s : State) : State :=
  mkState (focusDuration s) (breakDuration s) (mode s) (status s) x
          (completionMessage s) (deadline s) (isInitialized s) (audioRef s)
          (toneLoaded s) (outputs s).

Definition setCompletionMessage (x : string) (s : State) : State :=
  mkState (focusDuration s) (breakDuration s) (mode s) (status s) (timeLeft s)
          x (deadline s) (isInitialized s) (audioRef s)
          (toneLoaded s) (outputs s).

Definition setDeadline (x : option Z) (s : State) : State :=
  mkState (focusDuration s) (breakDuration s) (mode s) (status s) (timeLeft s)
          (completionMessage s) x (isInitialized s) (audioRef s)
          (toneLoaded s) (outputs s).

Definition setIsInitialized (x : bool) (s : State) : State :=
  mkState (focusDuration s) (breakDuration s) (mode s) (status s) (timeLeft s)
          (completionMessage s) (deadline s) x (audioRef s)
          (toneLoaded s) (outputs s).

Definition setAudioRef (x : option bool) (s : State) : State :=
  mkState (focusDuration s) (breakDuration s) (mode s) (status s) (timeLeft s)
          (completionMessage s) (deadline s) (isInitialized s) x
          (toneLoaded s) (outputs s).

Definition setToneLoaded (x : bool) (s : State) : State :=
  mkState (focusDuration s) (breakDuration s) (mode s) (status s) (timeLeft s)
          (completionMessage s) (deadline s) (isInitialized s) (audioRef s)
          x (outputs s).

Definition emit (o : Output) (s : State) : State :=
  mkState (focusDuration s) (breakDuration s) (mode s) (status s) (timeLeft s)
          (completionMessage s) (deadline s) (isInitialized s) (audioRef s)
          (toneLoaded s) (o :: outputs s).

(** The state of a freshly mounted component ([useState] initial values). *)
Definition initial (v : Variant) : State :=
  mkState (defaultFocus v) defaultBreak "focus" "idle" (defaultFocus v * 60)
          "" None false None false [].

(** The object [JSON.parse] returns, read through the seven properties the
    load effect looks up.  A property is [None] when it is missing
    ([undefined]; for all but [timeLeft] also when it is [null]); a property
    that is present has the type the save effect writes.  A [timeLeft] that
    is [null] passes the test [!== undefined] and is stored in the state as
    it is; every use the component makes of it ([<= 0], [* 1000], [/ 60],
    [% 60]) reads [null] as the number 0, so it is [Some 0] here. *)
Record Snapshot := mkSnapshot {
  s_focusDuration : option Z;
  s_breakDuration : option Z;
  s_mode : option string;
  s_status : option string;
  s_timeLeft : option Z;
  s_completionMessage : option string;
  s_deadline : option Z
}.

(** A text stored under the key ["pomodoroAppState"], by what the load effect
    and [JSON.parse] make of it. *)
Inductive Text :=
| EmptyText                   (* the empty string: falsy, never parsed *)
| BadText                     (* not empty, JSON.parse throws SyntaxError *)
| NullText                    (* parses to null *)
| ObjText (o : Snapshot).     (* parses to a value with these properties *)

(** [localStorage.getItem] gives [null] ([None]) when the key is absent. *)
Definition Storage := option Text.

(** ** Event handlers and actions

    A handler runs against the state of the render it was created in ([s])
    and queues its updates; React applies them together.  Each function
    below returns the state of the next render. *)

Definition isRunning (s : State) : bool := String.eqb (status s) "running".

(** [playSound] of [App.tsx]: one note on a Tone.js synth, or a console
    warning when [window.Tone] is undefined. *)
Definition playSoundTone (s : State) : State :=
  if toneLoaded s then emit SynthNote s else emit ToneMissing s.

(** [playSound(loop)] of the other variant: pause the element the ref holds,
    play a new [Audio] with the given loop flag and keep it in the ref. *)
Definition playSoundAudio (loop : bool) (s : State) : State :=
  let s1 := match audioRef s with
            | Some _ => emit AudioPause s
            | None => s
            end in
  setAudioRef (Some loop) (emit (AudioPlay loop) s1).

(** [stopSound] (only in the other variant). *)
Definition stopSound (s : State) : State :=
  match audioRef s with
  | Some _ => setAudioRef None (emit AudioPause s)
  | None => s
  end.

Definition handleTimerCompletion (v : Variant) (s : State) : State :=
  let s1 := setStatus "idle" (setDeadline None s) in
  match v with
  | AppTsx =>
      if String.eqb (mode s) "focus" then
        setTimeLeft (breakDuration s * 60)
          (setCompletionMessage "Foco finalizado" (setMode "break" s1))
      else
        playSoundTone
          (setTimeLeft (focusDuration s * 60)
             (setCompletionMessage "Fim da pausa" (setMode "focus" s1)))
  | Part000 =>
      if String.eqb (mode s) "focus" then
        setTimeLeft (10 * 60)
          (setCompletionMessage "Foco finalizado"
             (setMode "break" (setBreakDuration 10 s1)))
      else
        setTimeLeft (30 * 60)
          (setCompletionMessage ""
             (setMode "focus"
                (setBreakDuration 10
                   (setFocusDuration 30 (playSoundAudio true s1)))))
  end.

Definition startTimer (v : Variant) (now : Z) (s : State) : State :=
  let s1 := match v with AppTsx => s | Part000 => stopSound s end in
  setDeadline (Some (now + timeLeft s * 1000))
    (setStatus "running" (setCompletionMessage "" s1)).

(** The updater passed to [setStatus] sees the pending status; [timeLeft] is
    the one of the render. *)
Definition togglePause (now : Z) (s : State) : State :=
  if String.eqb (status s) "running" then
    setStatus "paused" (setDeadline None s)
  else if String.eqb (status s) "paused" then
    setStatus "running" (setDeadline (Some (now + timeLeft s * 1000)) s)
  else s.

Definition resetTimer (s : State) : State :=
  setTimeLeft
    ((if String.eqb (mode s) "focus" then focusDuration s else breakDuration s) * 60)
    (setCompletionMessage "" (setDeadline None (setStatus "idle" s))).

Definition resetToStart (v : Variant) (s : State) : State :=
  match v with
  | AppTsx =>
      setTimeLeft (focusDuration s * 60)
        (setCompletionMessage ""
           (setDeadline None (setStatus "idle" (setMode "focus" s))))
  | Part000 =>
      let defaultFocusTime := 30 in
      setTimeLeft (defaultFocusTime * 60)
        (setCompletionMessage ""
           (setDeadline None
              (setStatus "idle" (setMode "focus" (setFocusDuration defaultFocusTime s)))))
  end.

(** [parseInt(e.target.value, 10) || 1]: [NaN] and [0] are falsy. *)
Definition editedValue (input : string) : Z :=
  Js.orZ (Js.parseInt input) 1.

Definition updateFocusDuration (input : string) (s : State) : State :=
  let value := editedValue input in
  let s1 := setFocusDuration value s in
  if String.eqb (status s) "idle" && String.eqb (mode s) "focus"
  then setTimeLeft (value * 60) s1
  else s1.

Definition updateBreakDuration (input : string) (s : State) : State :=
  let value := editedValue input in
  let s1 := setBreakDuration value s in
  if String.eqb (status s) "idle" && String.eqb (mode s) "break"
  then setTimeLeft (value * 60) s1
  else s1.

(** ** Effects *)

(** The remaining seconds the interval callback computes:
    [Math.max(0, Math.round(remaining / 1000))]. *)
Definition remainingSeconds (deadline now : Z) : Z :=
  Z.max 0 (Js.roundSeconds (deadline - now)).

(** The guard at the head of the timer effect. *)
Definition completionDue (s : State) : bool :=
  (timeLeft s <=? 0) && isRunning s.

(** The timer effect of a render: [Some] when it calls
    [handleTimerCompletion] (and returns), [None] otherwise. *)
Definition timerEffect (v : Variant) (s : State) : option State :=
  if completionDue s then Some (handleTimerCompletion v s) else None.

(** Whether the timer effect of the render has set the one-second interval. *)
Definition intervalArmed (s : State) : bool :=
  negb (completionDue s) && isRunning s && Js.truthy (deadline s).

(** The interval callback of a render whose deadline is [d]. *)
Definition intervalCallback (d now : Z) (s : State) : State :=
  setTimeLeft (remainingSeconds d now) s.

(** One firing of the interval, if the render has set one. *)
Definition tick (now : Z) (s : State) : State :=
  match deadline s with
  | Some d => if intervalArmed s then intervalCallback d now s else s
  | None => s
  end.

(** [x === k] on a property that may be missing. *)
Definition propertyIs (x : option string) (k : string) : bool :=
  match x with
  | Some s => String.eqb s k
  | None => false
  end.

(** The body of the [try] block of the load effect once [savedState] is an
    object [o]. *)
Definition restore (v : Variant) (now : Z) (o : Snapshot) (s : State) : State :=
  let s1 :=
    setCompletionMessage (Js.orS (s_completionMessage o) "")
      (setMode (Js.orS (s_mode o) "focus")
         (setBreakDuration (Js.orZ (s_breakDuration o) 10)
            (setFocusDuration (Js.orZ (s_focusDuration o) (defaultFocus v)) s))) in
  (* the else branch: paused or idle, loaded as it was *)
  let asItWas :=
    setDeadline None
      (setTimeLeft
         (match s_timeLeft o with
          | Some t => t
          | None => Js.orZ (s_focusDuration o) (defaultFocus v) * 60
          end)
         (setStatus (Js.orS (s_status o) "idle") s1)) in
  match s_deadline o with
  | Some d =>
      if propertyIs (s_status o) "running" && Js.truthy (Some d) then
        let remaining := d - now in
        if 0 <? remaining then
          setDeadline (Some d)
            (setStatus "running" (setTimeLeft (Js.roundSeconds remaining) s1))
        else
          setDeadline (Some d) (setStatus "running" (setTimeLeft 0 s1))
      else asItWas
  | None => asItWas
  end.

Inductive Exception := SyntaxError | TypeError.

(** [JSON.parse] on a stored text that is not empty. *)
Definition JSON_parse (t : Text) : Exception + option Snapshot :=
  match t with
  | EmptyText | BadText => inl SyntaxError
  | NullText => inr None
  | ObjText o => inr (Some o)
  end.

(** The [try] block: both places that can throw ([JSON.parse], and the first
    property read when [savedState] is [null]) come before the first setter. *)
Definition tryLoad (v : Variant) (now : Z) (t : Text) (s : State)
  : Exception + State :=
  match JSON_parse t with
  | inl e => inl e
  | inr None => inl TypeError
  | inr (Some o) => inr (restore v now o s)
  end.

(** The load effect, run once on mount: the new state and what is left in
    storage. *)
Definition loadEffect (v : Variant) (now : Z) (stored : Storage) (s : State)
  : State * Storage :=
  let '(s1, stored1) :=
    match stored with
    | None | Some EmptyText => (s, stored)        (* if (savedStateJSON) fails *)
    | Some t =>
        match tryLoad v now t s with
        | inr s' => (s', stored)
        | inl _ => (s, None)                      (* catch: removeItem *)
        end
    end in
  (setIsInitialized true s1, stored1).

(** The object the save effect serializes. *)
Definition stateToSave (s : State) : Snapshot :=
  mkSnapshot (Some (focusDuration s)) (Some (breakDuration s)) (Some (mode s))
             (Some (status s)) (Some (timeLeft s)) (Some (completionMessage s))
             (deadline s).

(** The save effect: nothing before the load effect has run. *)
Definition saveEffect (s : State) (stored : Storage) : Storage :=
  if isInitialized s then Some (ObjText (stateToSave s)) else stored.

(** ** The component as a transition system

    After every render React runs the effects whose dependencies changed.
    The timer effect may call [handleTimerCompletion], which changes the
    state and so causes another render: [settles v s n s'] says that the
    renders starting from [s] come to rest in [s'] after [n] calls of
    [handleTimerCompletion]. *)

Inductive settles (v : Variant) : State -> nat -> State -> Prop :=
| settles_rest s :
    timerEffect v s = None -> settles v s 0 s
| settles_completion s s1 n s' :
    timerEffect v s = Some s1 -> settles v s1 n s' -> settles v s (S n) s'.

(** What can happen to a mounted component: the user intents, a firing of
    the interval, the Tone.js script finishing to load, and a reload of the
    page (a fresh component whose load effect runs at time [now]). *)
Inductive Action :=
| Start (now : Z)
| TogglePause (now : Z)
| Reset
| ResetToStart
| EditFocus (input : string)
| EditBreak (input : string)
| Tick (now : Z)
| ToneScriptLoaded
| Reload (now : Z).

(** The component together with the storage key. *)
Record Sys := mkSys { app : State; storage : Storage }.

(** The state an action leaves for the next render, before that render's
    effects run. *)
Definition handle (v : Variant) (a : Action) (y : Sys) : State * Storage :=
  match a with
  | Start now => (startTimer v now (app y), storage y)
  | TogglePause now => (togglePause now (app y), storage y)
  | Reset => (resetTimer (app y), storage y)
  | ResetToStart => (resetToStart v (app y), storage y)
  | EditFocus input => (updateFocusDuration input (app y), storage y)
  | EditBreak input => (updateBreakDuration input (app y), storage y)
  | Tick now => (tick now (app y), storage y)
  | ToneScriptLoaded => (setToneLoaded true (app y), storage y)
  | Reload now => loadEffect v now (storage y) (initial v)
  end.

(** [Date.now()] counts milliseconds from the epoch: it is not negative. *)
Definition clockOk (a : Action) : Prop :=
  match a with
  | Start now | TogglePause now | Tick now | Reload now => 0 <= now
  | _ => True
  end.

(** One action, the renders it causes, and the save effect of the last one. *)
Inductive step (v : Variant) : Sys -> Action -> Sys -> Prop :=
| step_action y a s stored n s' :
    clockOk a ->
    handle v a y = (s, stored) ->
    settles v s n s' ->
    step v y a (mkSys s' (saveEffect s' stored)).

Inductive runs (v : Variant) : Sys -> list Action -> Sys -> Prop :=
| runs_nil y : runs v y [] y
| runs_cons y a y1 l y' :
    step v y a y1 -> runs v y1 l y' -> runs v y (a :: l) y'.

(** The component before its first mount, with nothing stored. *)
Definition boot (v : Variant) : Sys := mkSys (initial v) None.

Definition reachable (v : Variant) (y : Sys) : Prop :=
  exists l, runs v (boot v) l y.

(** ** Predicates used in the statements *)

(** The input of a duration edit parses to a negative integer. *)
Definition isNegativeInput (input : string) : bool :=
  match Js.parseInt input with
  | Some n => n <? 0
  | None => false
  end.

(** An action that is not a duration edit with a negative input. *)
Definition editOk (a : Action) : Prop :=
  match a with
  | EditFocus input | EditBreak input => isNegativeInput input = false
  | _ => True
  end.

(** The invariant of the data model: a deadline is set exactly when the
    session is running. *)
Definition deadlineIffRunning (s : State) : Prop :=
  deadline s <> None <-> status s = "running".

(** What holds of a state an action has just produced, before the timer
    effect of its render has run. *)
Definition consistent (s : State) : Prop :=
  (status s = "running" ->
   exists d, deadline s = Some d /\ (0 < timeLeft s -> 0 < d)) /\
  (status s <> "running" -> deadline s = None).

(** What holds once the renders have come to rest: a running session has
    time left and a deadline after the epoch. *)
Definition atRest (s : State) : Prop :=
  (status s = "running" ->
   exists d, deadline s = Some d /\ 0 < d /\ 0 < timeLeft s) /\
  (status s <> "running" -> deadline s = None).

(** The stored snapshot of a running session carries its deadline. *)
Definition storedConsistent (stored : Storage) : Prop :=
  forall o, stored = Some (ObjText o) ->
    s_status o = Some "running" -> exists d, s_deadline o = Some d /\ 0 < d.

(** What the load effect needs of a stored text to keep that invariant: a
    snapshot whose status is running has a deadline (one that is truthy). *)
Definition storedRunningHasDeadline (stored : Storage) : Prop :=
  forall o, stored = Some (ObjText o) ->
    s_status o = Some "running" -> Js.truthy (s_deadline o) = true.

(** Positive durations and a time left that is not negative. *)
Definition sane (s : State) : Prop :=
  0 < focusDuration s /\ 0 < breakDuration s /\ 0 <= timeLeft s.

Definition storedSane (stored : Storage) : Prop :=
  forall o, stored = Some (ObjText o) ->
    (forall x, s_focusDuration o = Some x -> 0 <= x) /\
    (forall x, s_breakDuration o = Some x -> 0 <= x) /\
    (forall x, s_timeLeft o = Some x -> 0 <= x).

(** A valid Session in the words of the data model of the specification:
    every field present, positive durations, a mode and a status of the
    enumerations, a time left that is not negative, and a deadline exactly
    when running. *)
Definition isValidSession (o : Snapshot) : bool :=
  match s_focusDuration o, s_breakDuration o, s_mode o, s_status o,
        s_timeLeft o, s_completionMessage o with
  | Some f, Some b, Some m, Some st, Some t, Some _ =>
      (0 <? f) && (0 <? b) && (0 <=? t)
      && (String.eqb m "focus" || String.eqb m "break")
      && (String.eqb st "idle" || String.eqb st "running" || String.eqb st "paused")
      && Bool.eqb (String.eqb st "running")
                  (match s_deadline o with Some _ => true | None => false end)
  | _, _, _, _, _, _ => false
  end.

(** A stored text that cannot be deserialized as a valid Session. *)
Definition isMalformed (t : Text) : bool :=
  match t with
  | ObjText o => negb (isValidSession o)
  | EmptyText | BadText | NullText => true
  end.

(** The session fields are the defaults of the variant. *)
Definition isDefault (v : Variant) (s : State) : Prop :=
  focusDuration s = defaultFocus v /\ breakDuration s = defaultBreak /\
  mode s = "focus" /\ status s = "idle" /\
  timeLeft s = defaultFocus v * 60 /\ completionMessage s = "" /\
  deadline s = None.

(** ** What the component shows *)

(** [displayTime]: [Math.floor(timeLeft / 60)] and [timeLeft % 60] (the
    remainder has the sign of [timeLeft]), each padded to two characters.
    It is the display of the component for a [timeLeft] below 2^53 in
    magnitude (see [Js.toString]). *)
Definition displayTime (s : State) : string :=
  let minutes := timeLeft s / 60 in
  let seconds := Z.rem (timeLeft s) 60 in
  String.append (Js.padStart2 (Js.toString minutes))
    (String.append ":" (Js.padStart2 (Js.toString seconds))).

(** The controls of the rendered component, each with the handler the JSX
    binds to it. *)
Inductive Control :=
| FocusInput              (* onChange = updateFocusDuration *)
| StartFocusButton        (* "Iniciar Foco": onClick = startTimer *)
| BreakInput              (* onChange = updateBreakDuration *)
| StartBreakButton        (* "Iniciar Pausa": onClick = startTimer *)
| NewSessionButton        (* "Nova Sessao de Foco": onClick = resetToStart *)
| PauseButton (label : string)   (* onClick = togglePause *)
| ResetButton             (* "Redefinir": onClick = resetTimer *)
| SkipBreakButton.        (* "Pular Pausa": onClick = resetToStart *)

(** The conditional rendering of [<main>]. *)
Definition controls (s : State) : list Control :=
  (if String.eqb (status s) "idle" then
     if String.eqb (completionMessage s) "" then
       [FocusInput; StartFocusButton]
     else
       (if String.eqb (mode s) "break"
        then [BreakInput; StartBreakButton] else [])
       ++ (if String.eqb (mode s) "focus"
              && negb (String.eqb (completionMessage s) "")
           then [NewSessionButton] else [])
   else [])
  ++ (if String.eqb (status s) "running" || String.eqb (status s) "paused" then
        if String.eqb (mode s) "focus" then
          [PauseButton (if String.eqb (status s) "running"
                        then "Pausar" else "Continuar");
           ResetButton]
        else [SkipBreakButton]
      else []).

(** The action an event on a control causes. *)
Definition fires (c : Control) (a : Action) : bool :=
  match c, a with
  | FocusInput, EditFocus _ => true
  | BreakInput, EditBreak _ => true
  | StartFocusButton, Start _ => true
  | StartBreakButton, Start _ => true
  | NewSessionButton, ResetToStart => true
  | SkipBreakButton, ResetToStart => true
  | PauseButton _, TogglePause _ => true
  | ResetButton, Reset => true
  | _, _ => false
  end.

(** An action the rendered component can receive: a user intent needs a
    control that is shown; the interval, the script and a reload do not. *)
Definition offered (s : State) (a : Action) : bool :=
  match a with
  | Tick _ | ToneScriptLoaded | Reload _ => true
  | _ => existsb (fun c => fires c a) (controls s)
  end.

(** Runs in which every user intent goes through a control that is shown. *)
Inductive uiRuns (v : Variant) : Sys -> list Action -> Sys -> Prop :=
| uiRuns_nil y : uiRuns v y [] y
| uiRuns_cons y a y1 l y' :
    offered (app y) a = true ->
    step v y a y1 -> uiRuns v y1 l y' -> uiRuns v y (a :: l) y'.

(** ** More predicates used in the statements *)

(** The last two characters of a string. *)
Definition lastTwo (s : string) : string :=
  String.substring (String.length s - 2) 2 s.

(** The configured duration of the current mode, as [resetTimer] reads it. *)
Definition modeDuration (s : State) : Z :=
  if String.eqb (mode s) "focus" then focusDuration s else breakDuration s.

(** Status and mode are of their enumerations and no duration is zero. *)
Definition shaped (s : State) : Prop :=
  (status s = "idle" \/ status s = "running" \/ status s = "paused") /\
  (mode s = "focus" \/ mode s = "break") /\
  focusDuration s <> 0 /\ breakDuration s <> 0.

(** An idle session has all the time of its mode left. *)
Definition idleFull (s : State) : Prop :=
  status s = "idle" -> timeLeft s = modeDuration s * 60.

(** The storage holds what the save effect of the current state writes
    (nothing before the first mount). *)
Definition synced (y : Sys) : Prop :=
  storage y = saveEffect (app y) None.

(** What every reachable state of the component satisfies. *)
Definition wellFormed (y : Sys) : Prop :=
  shaped (app y) /\ idleFull (app y) /\ synced y.

(** The number of [Audio] elements that were played and not paused since,
    read off the outputs (newest first). *)
Fixpoint playing (outs : list Output) : nat :=
  match outs with
  | [] => O
  | AudioPlay _ :: rest => S (playing rest)
  | AudioPause :: rest => Nat.pred (playing rest)
  | _ :: rest => playing rest
  end.

(** No [Audio] element was ever played or paused. *)
Definition noAudio (outs : list Output) : bool :=
  forallb (fun o => match o with
                    | AudioPlay _ | AudioPause => false
                    | SynthNote | ToneMissing => true
                    end) outs.

(** The ref holds an element exactly when one is playing, and [App.tsx]
    never holds one. *)
Definition audioTracked (v : Variant) (s : State) : Prop :=
  playing (outputs s)
  = match audioRef s with Some _ => 1%nat | None => 0%nat end /\
  (v = AppTsx -> audioRef s = None).

(** Only a focus interval is ever paused, and an idle session without a
    completion message is in focus mode. *)
Definition focusOnly (s : State) : Prop :=
  (status s = "paused" -> mode s = "focus") /\
  (status s = "idle" -> completionMessage s = "" -> mode s = "focus").

(** ** Arithmetic of the clock *)


Lemma roundSeconds_nonneg (ms : Z) : 0 <= ms -> 0 <= Js.roundSeconds ms.
Proof.
  intros H. unfold Js.roundSeconds. apply Z.div_pos; lia.
Qed.

Lemma roundSeconds_nonpos (ms : Z) : ms <= 0 -> Js.roundSeconds ms <= 0.
Proof.
  intros H. unfold Js.roundSeconds.
  assert (Hlt : (ms + 500) / 1000 < 1) by (apply Z.div_lt_upper_bound; lia).
  lia.
Qed.

Lemma remainingSeconds_nonneg (d now : Z) : 0 <= remainingSeconds d now.
Proof. unfold remainingSeconds. lia. Qed.


(** ** The scenarios of the specification, by evaluation *)

Example parseInt_samples :
  Js.parseInt "25" = Some 25 /\ Js.parseInt " 12abc" = Some 12 /\
  Js.parseInt "3.7" = Some 3 /\ Js.parseInt "" = None /\
  Js.parseInt "abc" = None /\ Js.parseInt "-0" = Some 0.
Proof. repeat split. Qed.

Example roundSeconds_samples :
  Js.roundSeconds 1499 = 1 /\ Js.roundSeconds 1500 = 2 /\
  Js.roundSeconds 499 = 0 /\ Js.roundSeconds (-500) = 0 /\
  Js.roundSeconds (-501) = -1.
Proof. repeat split. Qed.

(** Editing the focus duration to 5 while idle in focus mode sets timeLeft
    to 300. *)
Example edit_five_minutes :
  timeLeft (updateFocusDuration "5" (initial AppTsx)) = 300.
Proof. reflexivity. Qed.

(** A focus duration of one minute: start, and the firing of the interval
    sixty seconds later leaves a running session with no time left, which the
    timer effect turns into an idle break of [breakDuration * 60] seconds. *)
Example one_minute_focus :
  timerEffect AppTsx
    (tick 1700000060000
       (startTimer AppTsx 1700000000000
          (updateFocusDuration "1" (setIsInitialized true (initial AppTsx)))))
  = Some (mkState 1 10 "break" "idle" 600 "Foco finalizado" None true None
                  false []).
Proof. reflexivity. Qed.

(** ** The handlers, field by field *)

Lemma togglePause_running (now : Z) (s : State) :
  status s = "running" ->
  togglePause now s = setStatus "paused" (setDeadline None s).
Proof. intros H. unfold togglePause. now rewrite H. Qed.

Lemma togglePause_paused (now : Z) (s : State) :
  status s = "paused" ->
  togglePause now s =
  setStatus "running" (setDeadline (Some (now + timeLeft s * 1000)) s).
Proof. intros H. unfold togglePause. now rewrite H. Qed.

Lemma togglePause_other (now : Z) (s : State) :
  status s <> "running" -> status s <> "paused" -> togglePause now s = s.
Proof.
  intros H1 H2. unfold togglePause.
  apply String.eqb_neq in H1, H2. now rewrite H1, H2.
Qed.

Lemma startTimer_fields (v : Variant) (now : Z) (s : State) :
  status (startTimer v now s) = "running" /\
  deadline (startTimer v now s) = Some (now + timeLeft s * 1000) /\
  timeLeft (startTimer v now s) = timeLeft s /\
  completionMessage (startTimer v now s) = "" /\
  focusDuration (startTimer v now s) = focusDuration s /\
  breakDuration (startTimer v now s) = breakDuration s.
Proof.
  destruct v; unfold startTimer, stopSound; destruct (audioRef s); cbn; auto 10.
Qed.

Lemma handleTimerCompletion_idle (v : Variant) (s : State) :
  status (handleTimerCompletion v s) = "idle" /\
  deadline (handleTimerCompletion v s) = None.
Proof.
  destruct v; unfold handleTimerCompletion, playSoundTone, playSoundAudio;
    destruct (String.eqb (mode s) "focus"); cbn;
    destruct (toneLoaded s), (audioRef s); cbn; auto.
Qed.

(** C10. For every session whose status is idle, the pause/resume toggle
    changes nothing: the state after it is the state before it, so status,
    mode, timeLeft, deadline, completionMessage and both durations are
    unchanged. *)
Theorem togglePause_idle_noop (now : Z) (s : State) :
  status s = "idle" -> togglePause now s = s.
Proof.
  intros H. apply togglePause_other; rewrite H; discriminate.
Qed.

Lemma togglePause_idle_noop_witness :
  status (initial AppTsx) = "idle" /\
  togglePause 1700000000000 (initial AppTsx) = initial AppTsx.
Proof.
  split; [reflexivity | apply togglePause_idle_noop; reflexivity].
Defined.






(** ** Loading a snapshot *)

Lemma loadEffect_object (v : Variant) (now : Z) (o : Snapshot) (s : State) :
  loadEffect v now (Some (ObjText o)) s =
  (setIsInitialized true (restore v now o s), Some (ObjText o)).
Proof. reflexivity. Qed.

(** The running branch of the load effect computes what the interval
    callback computes. *)
Lemma restore_running (v : Variant) (now d : Z) (o : Snapshot) (s : State) :
  s_status o = Some "running" ->
  s_deadline o = Some d ->
  d <> 0 ->
  status (restore v now o s) = "running" /\
  deadline (restore v now o s) = Some d /\
  timeLeft (restore v now o s) = remainingSeconds d now.
Proof.
  intros Hs Hd Hnz. unfold restore. rewrite Hs, Hd. cbn.
  destruct (Z.eqb_spec d 0) as [|_]; [contradiction|]. cbn.
  unfold remainingSeconds.
  destruct (Z.ltb_spec 0 (d - now)) as [Hpos|Hneg]; cbn.
  - pose proof (roundSeconds_nonneg (d - now)). repeat split; auto; lia.
  - pose proof (roundSeconds_nonpos (d - now)). repeat split; auto; lia.
Qed.

(** The other branch: status and timeLeft as stored, no deadline. *)
Lemma restore_asItWas (v : Variant) (now : Z) (o : Snapshot) (s : State) :
  propertyIs (s_status o) "running" && Js.truthy (s_deadline o) = false ->
  status (restore v now o s) = Js.orS (s_status o) "idle" /\
  deadline (restore v now o s) = None /\
  timeLeft (restore v now o s) =
    match s_timeLeft o with
    | Some t => t
    | None => Js.orZ (s_focusDuration o) (defaultFocus v) * 60
    end.
Proof.
  intros H. unfold restore.
  destruct (s_deadline o) as [d|]; [|cbn; auto].
  rewrite H. cbn. auto.
Qed.

Lemma restore_durations (v : Variant) (now : Z) (o : Snapshot) (s : State) :
  focusDuration (restore v now o s) = Js.orZ (s_focusDuration o) (defaultFocus v) /\
  breakDuration (restore v now o s) = Js.orZ (s_breakDuration o) 10.
Proof.
  unfold restore.
  destruct (s_deadline o) as [d|]; [|cbn; auto].
  destruct (propertyIs (s_status o) "running" && Js.truthy (Some d)); [|cbn; auto].
  destruct (0 <? d - now); cbn; auto.
Qed.



(** C9 as stated fails: the empty text and a text that parses to an object
    that is no valid Session are both malformed, yet the load effect leaves
    the key in storage, and for the object it does not fall back to the
    defaults. *)
Lemma load_malformed_kept :
  isMalformed EmptyText = true /\
  snd (loadEffect AppTsx 1700000000000 (Some EmptyText) (initial AppTsx))
    = Some EmptyText /\
  isMalformed (ObjText (mkSnapshot None None None (Some "banana")
                          (Some (-7)) None None)) = true /\
  snd (loadEffect AppTsx 1700000000000
         (Some (ObjText (mkSnapshot None None None (Some "banana")
                           (Some (-7)) None None)))
         (initial AppTsx))
    = Some (ObjText (mkSnapshot None None None (Some "banana")
                       (Some (-7)) None None)) /\
  status (fst (loadEffect AppTsx 1700000000000
         (Some (ObjText (mkSnapshot None None None (Some "banana")
                           (Some (-7)) None None)))
         (initial AppTsx))) = "banana" /\
  timeLeft (fst (loadEffect AppTsx 1700000000000
         (Some (ObjText (mkSnapshot None None None (Some "banana")
                           (Some (-7)) None None)))
         (initial AppTsx))) = -7.
Proof. repeat split. Qed.

(** C9, amended. For every stored text that is not empty and on which
    [JSON.parse] throws, or which parses to [null], the load effect removes
    the key and leaves the session at its defaults.  The empty text is left
    in storage, and so is every text that parses to an object. *)
Theorem load_unparsable_cleared (v : Variant) (now : Z) (t : Text) :
  (t <> EmptyText ->
   JSON_parse t = inl SyntaxError \/ JSON_parse t = inr None ->
   loadEffect v now (Some t) (initial v)
     = (setIsInitialized true (initial v), None) /\
   isDefault v (fst (loadEffect v now (Some t) (initial v)))) /\
  loadEffect v now (Some EmptyText) (initial v)
    = (setIsInitialized true (initial v), Some EmptyText) /\
  (forall o, snd (loadEffect v now (Some (ObjText o)) (initial v))
             = Some (ObjText o)).
Proof.
  split; [|split; [reflexivity | intros o; reflexivity]].
  intros Hne H.
  assert (E : loadEffect v now (Some t) (initial v)
              = (setIsInitialized true (initial v), None)).
  { destruct t; cbn in H |- *;
      try reflexivity; try contradiction;
      destruct H as [H|H]; discriminate H. }
  split; [exact E|].
  rewrite E. cbn. unfold isDefault. cbn. repeat split.
Qed.

Lemma load_unparsable_cleared_witness :
  loadEffect Part000 1700000000000 (Some BadText) (initial Part000)
    = (setIsInitialized true (initial Part000), None).
Proof.
  apply (load_unparsable_cleared Part000 1700000000000 BadText);
    [discriminate | left; reflexivity].
Defined.

(** ** Completion handling *)




(** ** Duration edits *)

Lemma editedValue_cases (input : string) :
  (Js.parseInt input = None -> editedValue input = 1) /\
  (Js.parseInt input = Some 0 -> editedValue input = 1) /\
  (forall n, Js.parseInt input = Some n -> n <> 0 -> editedValue input = n).
Proof.
  unfold editedValue, Js.orZ.
  repeat split; intros.
  - now rewrite H.
  - now rewrite H.
  - rewrite H. destruct (Z.eqb_spec n 0); [contradiction | reflexivity].
Qed.

Lemma editedValue_positive (input : string) :
  isNegativeInput input = false -> 1 <= editedValue input.
Proof.
  unfold isNegativeInput, editedValue, Js.orZ.
  destruct (Js.parseInt input) as [n|]; [|lia].
  intros H. apply Z.ltb_ge in H.
  destruct (Z.eqb_spec n 0); lia.
Qed.

(** C7.  The code misses the negative case of the claim:
    [parseInt(value, 10) || 1] replaces only [NaN] and [0], so the input "-5"
    is stored as a duration of -5 minutes, not coerced to 1, and, the session
    being idle in focus mode, sets timeLeft to -300. *)
Lemma edit_negative_not_coerced :
  Js.parseInt "-5" = Some (-5) /\
  focusDuration (updateFocusDuration "-5" (initial AppTsx)) = -5 /\
  timeLeft (updateFocusDuration "-5" (initial AppTsx)) = -300 /\
  breakDuration (updateBreakDuration "-5" (initial AppTsx)) = -5.
Proof. repeat split. Qed.

(** What a duration edit does for every input: the edited duration becomes
    the value, timeLeft becomes the value times 60 when the status is idle
    and the mode is the one of the edited duration and is unchanged
    otherwise, and nothing else changes.  The value is the integer [parseInt]
    reads at the head of the input when that is positive, 1 when there is
    none or it is zero; it is at least 1 unless the input parses to a
    negative integer. *)
Lemma edit_duration (input : string) (s : State) :
  (isNegativeInput input = false -> 1 <= editedValue input) /\
  (forall n, Js.parseInt input = Some n -> 0 < n -> editedValue input = n) /\
  (Js.parseInt input = None \/ Js.parseInt input = Some 0 ->
   editedValue input = 1) /\
  updateFocusDuration input s
    = setTimeLeft (if String.eqb (status s) "idle" && String.eqb (mode s) "focus"
                   then editedValue input * 60 else timeLeft s)
        (setFocusDuration (editedValue input) s) /\
  updateBreakDuration input s
    = setTimeLeft (if String.eqb (status s) "idle" && String.eqb (mode s) "break"
                   then editedValue input * 60 else timeLeft s)
        (setBreakDuration (editedValue input) s).
Proof.
  destruct (editedValue_cases input) as (Hnan & Hzero & Hnum).
  split; [apply editedValue_positive|].
  split; [intros n Hn Hpos; apply Hnum; [exact Hn | lia]|].
  split; [intros [H|H]; auto|].
  unfold updateFocusDuration, updateBreakDuration.
  split.
  - destruct (String.eqb (status s) "idle" && String.eqb (mode s) "focus");
      destruct s; reflexivity.
  - destruct (String.eqb (status s) "idle" && String.eqb (mode s) "break");
      destruct s; reflexivity.
Qed.

Lemma edit_duration_witness :
  1 <= editedValue "5" /\
  updateFocusDuration "5" (initial AppTsx)
    = setTimeLeft 300 (setFocusDuration 5 (initial AppTsx)).
Proof.
  pose proof (edit_duration "5" (initial AppTsx)) as (H1 & _ & _ & H2 & _).
  split; [exact (H1 eq_refl) | exact H2].
Defined.

(** ** The renders after an action come to rest *)

Lemma completionDue_spec (s : State) :
  completionDue s = true <-> timeLeft s <= 0 /\ status s = "running".
Proof.
  unfold completionDue, isRunning.
  rewrite andb_true_iff, Z.leb_le, String.eqb_eq. tauto.
Qed.

Lemma timerEffect_after_completion (v : Variant) (s : State) :
  timerEffect v (handleTimerCompletion v s) = None.
Proof.
  unfold timerEffect, completionDue, isRunning.
  destruct (handleTimerCompletion_idle v s) as [Hi _]. rewrite Hi.
  now rewrite andb_false_r.
Qed.

Lemma settles_inv (v : Variant) (s : State) (n : nat) (s' : State) :
  settles v s n s' ->
  (completionDue s = false /\ n = 0%nat /\ s' = s) \/
  (completionDue s = true /\ n = 1%nat /\ s' = handleTimerCompletion v s).
Proof.
  intros H. inversion H as [s0 Hq | s0 s1 m s2 He Hs]; subst.
  - left. unfold timerEffect in Hq.
    destruct (completionDue s'); [discriminate | auto].
  - right. unfold timerEffect in He.
    destruct (completionDue s) eqn:Hc; [|discriminate].
    injection He as <-.
    inversion Hs as [s0 Hq | s0 s3 k s4 He' Hs']; subst.
    + auto.
    + rewrite timerEffect_after_completion in He'. discriminate.
Qed.

Lemma settles_total (v : Variant) (s : State) :
  exists n s', settles v s n s'.
Proof.
  destruct (timerEffect v s) as [s1|] eqn:He.
  - exists 1%nat, s1. eapply settles_completion; [exact He|].
    apply settles_rest.
    unfold timerEffect in He. destruct (completionDue s); [|discriminate].
    injection He as <-. apply timerEffect_after_completion.
  - exists 0%nat, s. now apply settles_rest.
Qed.

(** A firing of the interval less than half a second before the deadline, or
    after it, leaves a running session with no time left. *)
Lemma tick_reaches_zero (now d : Z) (s : State) :
  intervalArmed s = true -> deadline s = Some d -> d - now < 500 ->
  status (tick now s) = "running" /\ timeLeft (tick now s) = 0.
Proof.
  intros Ha Hd Hlate. unfold tick. rewrite Hd, Ha.
  unfold intervalCallback, remainingSeconds, Js.roundSeconds. cbn.
  unfold intervalArmed, isRunning in Ha.
  apply andb_true_iff in Ha as [Ha _]. apply andb_true_iff in Ha as [_ Hr].
  apply String.eqb_eq in Hr. split; [exact Hr|].
  assert ((d - now + 500) / 1000 < 1) by (apply Z.div_lt_upper_bound; lia).
  lia.
Qed.

(** So does the load of a running snapshot whose deadline has passed. *)
Lemma load_expired_reaches_zero
  (v : Variant) (now d : Z) (o : Snapshot) (s : State) :
  s_status o = Some "running" -> s_deadline o = Some d -> d <> 0 -> d <= now ->
  status (fst (loadEffect v now (Some (ObjText o)) s)) = "running" /\
  timeLeft (fst (loadEffect v now (Some (ObjText o)) s)) = 0.
Proof.
  intros Hs Hd Hnz Hpast. rewrite loadEffect_object. cbn.
  destruct (restore_running v now d o s Hs Hd Hnz) as (H1 & _ & H3).
  split; [exact H1|]. rewrite H3.
  unfold remainingSeconds.
  pose proof (roundSeconds_nonpos (d - now)). lia.
Qed.

(** C2. For every running session whose timeLeft is zero (or below), the
    renders that follow come to rest after exactly one call of
    [handleTimerCompletion]: there is such a run, every run has exactly one
    call and ends in the same state, and in that state the status is idle and
    the deadline is cleared.  [tick_reaches_zero] and
    [load_expired_reaches_zero] show that ticking down and loading an expired
    deadline both produce such a session. *)
Theorem completion_exactly_once (v : Variant) (s : State) :
  status s = "running" ->
  timeLeft s <= 0 ->
  settles v s 1 (handleTimerCompletion v s) /\
  status (handleTimerCompletion v s) = "idle" /\
  deadline (handleTimerCompletion v s) = None /\
  (forall n s', settles v s n s' ->
                n = 1%nat /\ s' = handleTimerCompletion v s).
Proof.
  intros Hr Ht.
  assert (Hdue : completionDue s = true) by (apply completionDue_spec; auto).
  destruct (handleTimerCompletion_idle v s) as [Hi Hd].
  repeat split; auto.
  - eapply settles_completion.
    + unfold timerEffect. now rewrite Hdue.
    + apply settles_rest, timerEffect_after_completion.
  - destruct (settles_inv v s n s' H) as [(Hc & _) | (_ & Hn & _)];
      [congruence | exact Hn].
  - destruct (settles_inv v s n s' H) as [(Hc & _) | (_ & _ & Hs)];
      [congruence | exact Hs].
Qed.

Lemma completion_exactly_once_witness :
  settles AppTsx
    (fst (loadEffect AppTsx 1700000000000
            (Some (ObjText (mkSnapshot (Some 1) (Some 10) (Some "focus")
                              (Some "running") (Some 12) (Some "")
                              (Some 1699999990000))))
            (initial AppTsx)))
    1
    (mkState 1 10 "break" "idle" 600 "Foco finalizado" None true None false []).
Proof.
  apply (completion_exactly_once AppTsx
    (fst (loadEffect AppTsx 1700000000000
            (Some (ObjText (mkSnapshot (Some 1) (Some 10) (Some "focus")
                              (Some "running") (Some 12) (Some "")
                              (Some 1699999990000))))
            (initial AppTsx))));
    [reflexivity | cbn; lia].
Defined.

(** ** Invariants of the transition system *)

(** One action of a concrete run whose render needs no completion. *)
Ltac quiet_step :=
  eapply step_action with (n := 0%nat);
  [cbn; try lia; exact I | reflexivity | apply settles_rest; reflexivity].

Lemma runs_invariant (v : Variant) (P : Action -> Prop) (I : Sys -> Prop) :
  (forall y a y', I y -> P a -> step v y a y' -> I y') ->
  forall y l y', runs v y l y' -> Forall P l -> I y -> I y'.
Proof.
  intros Hstep y l y' Hruns.
  induction Hruns as [y | y a y1 l y' Hs _ IH]; intros HP Hy.
  - exact Hy.
  - inversion HP; subst. apply IH; [assumption|]. eapply Hstep; eauto.
Qed.

Lemma atRest_consistent (s : State) : atRest s -> consistent s.
Proof.
  intros [Hr Hn]. split; [|exact Hn].
  intros H. destruct (Hr H) as (d & Hd & Hpos & _). eauto.
Qed.

Lemma consistent_deadlineIffRunning (s : State) :
  consistent s -> deadlineIffRunning s.
Proof.
  intros [Hr Hn]. split.
  - intros Hd. destruct (string_dec (status s) "running") as [|Hne]; [assumption|].
    now apply Hn in Hne.
  - intros H. destruct (Hr H) as (d & Hd & _). congruence.
Qed.

Lemma settles_atRest (v : Variant) (s : State) (n : nat) (s' : State) :
  consistent s -> settles v s n s' -> atRest s'.
Proof.
  intros [Hr Hn] H.
  destruct (settles_inv v s n s' H) as [(Hc & _ & ->) | (_ & _ & ->)].
  - split; [|exact Hn].
    intros Hrun. destruct (Hr Hrun) as (d & Hd & Hpos).
    assert (0 < timeLeft s).
    { destruct (Z.leb_spec (timeLeft s) 0) as [Hle|]; [|assumption].
      assert (completionDue s = true) by (apply completionDue_spec; auto).
      congruence. }
    eauto.
  - destruct (handleTimerCompletion_idle v s) as [Hi Hd].
    split; [rewrite Hi; discriminate | auto].
Qed.

Lemma edit_keeps_status (input : string) (s : State) :
  status (updateFocusDuration input s) = status s /\
  deadline (updateFocusDuration input s) = deadline s /\
  status (updateBreakDuration input s) = status s /\
  deadline (updateBreakDuration input s) = deadline s.
Proof.
  unfold updateFocusDuration, updateBreakDuration.
  destruct (String.eqb (status s) "idle" && String.eqb (mode s) "focus"),
           (String.eqb (status s) "idle" && String.eqb (mode s) "break");
    cbn; auto.
Qed.

Lemma tick_keeps_status (now : Z) (s : State) :
  status (tick now s) = status s /\ deadline (tick now s) = deadline s.
Proof.
  unfold tick. destruct (deadline s) eqn:Hd; [|auto].
  destruct (intervalArmed s); cbn; auto.
Qed.

(** A state with the status and the deadline of a state at rest. *)
Lemma consistent_same_status (s s' : State) :
  atRest s -> status s' = status s -> deadline s' = deadline s -> consistent s'.
Proof.
  intros [Hr Hn] Hs Hd. split; rewrite Hs, Hd; [|exact Hn].
  intros H. destruct (Hr H) as (d & Hdl & Hpos & _). eauto.
Qed.

Lemma restore_consistent (v : Variant) (now : Z) (o : Snapshot) (s : State) :
  storedConsistent (Some (ObjText o)) -> consistent (restore v now o s).
Proof.
  intros Hst.
  destruct (propertyIs (s_status o) "running" && Js.truthy (s_deadline o)) eqn:Hb.
  - apply andb_true_iff in Hb as [Hp Ht].
    destruct (s_status o) as [st|] eqn:Hs; [|discriminate].
    cbn in Hp. apply String.eqb_eq in Hp. subst st.
    destruct (Hst o eq_refl Hs) as (d & Hd & Hpos).
    assert (Hnz : d <> 0) by lia.
    destruct (restore_running v now d o s Hs Hd Hnz) as (H1 & H2 & _).
    split; [eauto | intros Hne; congruence].
  - destruct (restore_asItWas v now o s Hb) as (H1 & H2 & _).
    split; [|auto].
    intros Hrun. rewrite H1 in Hrun. exfalso.
    assert (Hs : s_status o = Some "running").
    { unfold Js.orS in Hrun. destruct (s_status o) as [st|]; [|discriminate].
      destruct (String.eqb st ""); [discriminate | congruence]. }
    destruct (Hst o eq_refl Hs) as (d & Hd & Hpos).
    rewrite Hs, Hd in Hb. cbn in Hb.
    destruct (Z.eqb_spec d 0); [lia | discriminate].
Qed.

Lemma handle_consistent
  (v : Variant) (a : Action) (y : Sys) (s : State) (stored : Storage) :
  atRest (app y) -> storedConsistent (storage y) -> clockOk a ->
  handle v a y = (s, stored) ->
  consistent s /\ storedConsistent stored.
Proof.
  intros Hrest Hst Hclock Hh.
  destruct a; cbn in Hh, Hclock.
  - (* Start *)
    injection Hh as <- <-. split; [|exact Hst].
    destruct (startTimer_fields v now (app y)) as (Hs & Hd & Hl & _).
    split; [|congruence].
    intros _. rewrite Hd, Hl. eexists; split; [reflexivity | lia].
  - (* TogglePause *)
    injection Hh as <- <-. split; [|exact Hst].
    destruct (string_dec (status (app y)) "running") as [Hr|Hr].
    + rewrite (togglePause_running now _ Hr). split; cbn; [discriminate | auto].
    + destruct (string_dec (status (app y)) "paused") as [Hp|Hp].
      * rewrite (togglePause_paused now _ Hp). split; cbn; [|congruence].
        intros _. eexists; split; [reflexivity | lia].
      * rewrite (togglePause_other now _ Hr Hp). now apply atRest_consistent.
  - (* Reset *)
    injection Hh as <- <-. split; [|exact Hst].
    split; cbn; [discriminate | auto].
  - (* ResetToStart *)
    injection Hh as <- <-. split; [|exact Hst].
    destruct v; split; cbn; try discriminate; auto.
  - (* EditFocus *)
    injection Hh as <- <-. split; [|exact Hst].
    destruct (edit_keeps_status input (app y)) as (H1 & H2 & _).
    eapply consistent_same_status; eauto.
  - (* EditBreak *)
    injection Hh as <- <-. split; [|exact Hst].
    destruct (edit_keeps_status input (app y)) as (_ & _ & H1 & H2).
    eapply consistent_same_status; eauto.
  - (* Tick *)
    injection Hh as <- <-. split; [|exact Hst].
    destruct (tick_keeps_status now (app y)) as (H1 & H2).
    eapply consistent_same_status; eauto.
  - (* ToneScriptLoaded *)
    injection Hh as <- <-. split; [|exact Hst].
    eapply consistent_same_status; eauto.
  - (* Reload *)
    destruct (storage y) as [[| | |o]|] eqn:Hsto; cbn in Hh;
      injection Hh as <- <-;
      try (split; [split; cbn; [discriminate | auto]
                  | intros o' Ho'; discriminate Ho']).
    split; [|exact Hst].
    destruct (restore_consistent v now o (initial v) Hst) as [Hr Hn].
    split; cbn; assumption.
Qed.

Lemma saveEffect_consistent (s : State) (stored : Storage) :
  atRest s -> storedConsistent stored -> storedConsistent (saveEffect s stored).
Proof.
  intros [Hr _] Hst. unfold saveEffect.
  destruct (isInitialized s); [|exact Hst].
  intros o Ho Hs. injection Ho as <-. cbn in Hs |- *.
  injection Hs as Hs. destruct (Hr Hs) as (d & Hd & Hpos & _). eauto.
Qed.

Lemma step_atRest (v : Variant) (y : Sys) (a : Action) (y' : Sys) :
  atRest (app y) /\ storedConsistent (storage y) ->
  step v y a y' ->
  atRest (app y') /\ storedConsistent (storage y').
Proof.
  intros [Hrest Hst] Hstep.
  inversion Hstep as [y0 a0 s stored n s' Hclock Hh Hsettles]; subst.
  destruct (handle_consistent v a y s stored Hrest Hst Hclock Hh) as [Hc Hst'].
  pose proof (settles_atRest v s n s' Hc Hsettles) as Hrest'.
  cbn. split; [exact Hrest' | now apply saveEffect_consistent].
Qed.

Lemma reachable_atRest (v : Variant) (y : Sys) :
  reachable v y -> atRest (app y) /\ storedConsistent (storage y).
Proof.
  intros [l Hruns].
  apply (runs_invariant v (fun _ => True)
           (fun y => atRest (app y) /\ storedConsistent (storage y)))
    with (y := boot v) (l := l).
  - intros y0 a y1 Hy _ Hs. eapply step_atRest; eauto.
  - exact Hruns.
  - clear. induction l; constructor; auto.
  - split; [split; cbn; [discriminate | auto] | intros o Ho; discriminate Ho].
Qed.

(** Each action, from any state with the invariant. *)
Lemma running_deadlineIffRunning (s : State) (d : Z) :
  status s = "running" -> deadline s = Some d -> deadlineIffRunning s.
Proof. intros Hs Hd. unfold deadlineIffRunning. rewrite Hs, Hd. split; congruence. Qed.

Lemma stopped_deadlineIffRunning (s : State) :
  status s <> "running" -> deadline s = None -> deadlineIffRunning s.
Proof. intros Hs Hd. unfold deadlineIffRunning. rewrite Hd. split; congruence. Qed.

Lemma same_deadlineIffRunning (s s' : State) :
  status s' = status s -> deadline s' = deadline s ->
  deadlineIffRunning s -> deadlineIffRunning s'.
Proof. unfold deadlineIffRunning. intros -> ->. auto. Qed.

Lemma restore_deadlineIffRunning
  (v : Variant) (now : Z) (o : Snapshot) (s : State) :
  storedRunningHasDeadline (Some (ObjText o)) ->
  deadlineIffRunning (restore v now o s).
Proof.
  intros Hst.
  destruct (propertyIs (s_status o) "running" && Js.truthy (s_deadline o)) eqn:Hb.
  - apply andb_true_iff in Hb as [Hp Ht].
    destruct (s_status o) as [st|] eqn:Hs; [|discriminate].
    cbn in Hp. apply String.eqb_eq in Hp. subst st.
    destruct (s_deadline o) as [d|] eqn:Hd; [|discriminate].
    cbn in Ht. apply negb_true_iff, Z.eqb_neq in Ht.
    destruct (restore_running v now d o s Hs Hd Ht) as (H1 & H2 & _).
    eapply running_deadlineIffRunning; eauto.
  - destruct (restore_asItWas v now o s Hb) as (H1 & H2 & _).
    apply stopped_deadlineIffRunning; [|exact H2].
    rewrite H1. intros Hrun.
    assert (Hs : s_status o = Some "running").
    { unfold Js.orS in Hrun. destruct (s_status o) as [st|]; [|discriminate].
      destruct (String.eqb st ""); [discriminate | congruence]. }
    rewrite (Hst o eq_refl Hs), Hs in Hb. discriminate Hb.
Qed.

Lemma handle_deadlineIffRunning (v : Variant) (a : Action) (y : Sys) :
  deadlineIffRunning (app y) ->
  storedRunningHasDeadline (storage y) ->
  deadlineIffRunning (fst (handle v a y)).
Proof.
  intros Hinv Hst. destruct a; cbn [handle fst].
  - destruct (startTimer_fields v now (app y)) as (Hs & Hd & _).
    eapply running_deadlineIffRunning; eauto.
  - destruct (string_dec (status (app y)) "running") as [Hr|Hr].
    + rewrite (togglePause_running now _ Hr).
      apply stopped_deadlineIffRunning; [discriminate | reflexivity].
    + destruct (string_dec (status (app y)) "paused") as [Hp|Hp].
      * rewrite (togglePause_paused now _ Hp).
        eapply running_deadlineIffRunning; reflexivity.
      * now rewrite (togglePause_other now _ Hr Hp).
  - apply stopped_deadlineIffRunning; [discriminate | reflexivity].
  - destruct v; (apply stopped_deadlineIffRunning; [discriminate | reflexivity]).
  - destruct (edit_keeps_status input (app y)) as (H1 & H2 & _).
    eapply same_deadlineIffRunning; eauto.
  - destruct (edit_keeps_status input (app y)) as (_ & _ & H1 & H2).
    eapply same_deadlineIffRunning; eauto.
  - destruct (tick_keeps_status now (app y)) as (H1 & H2).
    eapply same_deadlineIffRunning; eauto.
  - eapply same_deadlineIffRunning; eauto.
  - destruct (storage y) as [[| | |o]|] eqn:Hsto; cbn;
      try (apply stopped_deadlineIffRunning; [discriminate | reflexivity]).
    pose proof (restore_deadlineIffRunning v now o (initial v) Hst) as H.
    eapply same_deadlineIffRunning; [| |exact H]; reflexivity.
Qed.

(** C1.  In every reachable state of the component (any sequence of starts,
    pauses and resumes, resets, duration edits, firings of the interval,
    completions, and reloads of the page from what the save effect stored,
    with a clock that is not negative) the deadline is set exactly when the
    status is running.  Every operation preserves this: each action, the load
    included, takes a state with the property to a state with the property,
    the load provided the stored snapshot has a deadline whenever its status
    is running (as every snapshot stored along a run has); and completion
    handling always leaves the status idle and the deadline cleared. *)
Theorem deadline_iff_running (v : Variant) :
  (forall y, reachable v y ->
     deadlineIffRunning (app y) /\ storedRunningHasDeadline (storage y)) /\
  (forall a y,
     deadlineIffRunning (app y) -> storedRunningHasDeadline (storage y) ->
     deadlineIffRunning (fst (handle v a y))) /\
  (forall s, deadlineIffRunning (handleTimerCompletion v s)).
Proof.
  split; [|split].
  - intros y Hreach.
    destruct (reachable_atRest v y Hreach) as [Hrest Hst].
    split; [now apply consistent_deadlineIffRunning, atRest_consistent|].
    intros o Ho Hs. destruct (Hst o Ho Hs) as (d & Hd & Hpos).
    rewrite Hd. cbn. destruct (Z.eqb_spec d 0); [lia | reflexivity].
  - intros a y. apply handle_deadlineIffRunning.
  - intros s. destruct (handleTimerCompletion_idle v s) as [Hi Hd].
    apply stopped_deadlineIffRunning; [rewrite Hi; discriminate | exact Hd].
Qed.

Lemma deadline_iff_running_witness :
  deadlineIffRunning
    (startTimer AppTsx 1700000001000 (setIsInitialized true (initial AppTsx))).
Proof.
  refine (proj1 (proj1 (deadline_iff_running AppTsx)
    (mkSys (startTimer AppTsx 1700000001000
              (setIsInitialized true (initial AppTsx))) _) _)).
  exists [Reload 1700000000000; Start 1700000001000].
  eapply runs_cons; [quiet_step|].
  eapply runs_cons; [quiet_step|].
  apply runs_nil.
Defined.

(** ** Time left is not negative *)

Lemma completion_sane (v : Variant) (s : State) :
  sane s -> sane (handleTimerCompletion v s).
Proof.
  intros (Hf & Hb & Ht).
  unfold sane, handleTimerCompletion, playSoundTone, playSoundAudio.
  destruct v; destruct (String.eqb (mode s) "focus"); cbn;
    destruct (toneLoaded s); destruct (audioRef s); cbn; lia.
Qed.

Lemma settles_sane (v : Variant) (s : State) (n : nat) (s' : State) :
  sane s -> settles v s n s' -> sane s'.
Proof.
  intros Hs H.
  destruct (settles_inv v s n s' H) as [(_ & _ & ->) | (_ & _ & ->)];
    [assumption | now apply completion_sane].
Qed.

Lemma orZ_positive (x : option Z) (d : Z) :
  (forall n, x = Some n -> 0 <= n) -> 0 < d -> 0 < Js.orZ x d.
Proof.
  intros Hx Hd. unfold Js.orZ. destruct x as [n|]; [|assumption].
  specialize (Hx n eq_refl). destruct (Z.eqb_spec n 0); lia.
Qed.

Lemma defaultFocus_positive (v : Variant) : 0 < defaultFocus v.
Proof. destruct v; reflexivity. Qed.

Lemma restore_sane (v : Variant) (now : Z) (o : Snapshot) (s : State) :
  storedSane (Some (ObjText o)) -> sane (restore v now o s).
Proof.
  intros Hst. destruct (Hst o eq_refl) as (Hf & Hb & Ht).
  pose proof (orZ_positive _ _ Hf (defaultFocus_positive v)) as Hfd.
  assert (Hbd : 0 < Js.orZ (s_breakDuration o) 10)
    by (apply orZ_positive; [assumption | reflexivity]).
  destruct (restore_durations v now o s) as [H1 H2].
  unfold sane. rewrite H1, H2. split; [assumption|]. split; [assumption|].
  unfold restore.
  assert (Helse : 0 <= match s_timeLeft o with
                       | Some t => t
                       | None => Js.orZ (s_focusDuration o) (defaultFocus v) * 60
                       end).
  { destruct (s_timeLeft o) as [t|]; [now apply Ht | lia]. }
  destruct (s_deadline o) as [d|]; [|cbn; exact Helse].
  destruct (propertyIs (s_status o) "running" && Js.truthy (Some d));
    [|cbn; exact Helse].
  destruct (Z.ltb_spec 0 (d - now)); cbn; [|lia].
  apply roundSeconds_nonneg. lia.
Qed.

Lemma handle_sane
  (v : Variant) (a : Action) (y : Sys) (s : State) (stored : Storage) :
  sane (app y) -> storedSane (storage y) -> editOk a ->
  handle v a y = (s, stored) ->
  sane s /\ storedSane stored.
Proof.
  intros Hsane Hst Hok Hh. pose proof Hsane as (Hf & Hb & Ht).
  destruct a; cbn in Hh, Hok.
  - injection Hh as <- <-. split; [|exact Hst].
    destruct (startTimer_fields v now (app y)) as (_ & _ & Hl & _ & Hfd & Hbd).
    unfold sane. rewrite Hl, Hfd, Hbd. auto.
  - injection Hh as <- <-. split; [|exact Hst].
    unfold togglePause.
    destruct (String.eqb (status (app y)) "running"); [exact Hsane|].
    destruct (String.eqb (status (app y)) "paused"); exact Hsane.
  - injection Hh as <- <-. split; [|exact Hst].
    unfold sane, resetTimer. cbn.
    destruct (String.eqb (mode (app y)) "focus"); lia.
  - injection Hh as <- <-. split; [|exact Hst].
    unfold sane, resetToStart. destruct v; cbn; lia.
  - injection Hh as <- <-. split; [|exact Hst].
    pose proof (editedValue_positive input Hok).
    unfold sane, updateFocusDuration.
    destruct (String.eqb (status (app y)) "idle" && String.eqb (mode (app y)) "focus");
      cbn; lia.
  - injection Hh as <- <-. split; [|exact Hst].
    pose proof (editedValue_positive input Hok).
    unfold sane, updateBreakDuration.
    destruct (String.eqb (status (app y)) "idle" && String.eqb (mode (app y)) "break");
      cbn; lia.
  - injection Hh as <- <-. split; [|exact Hst].
    unfold tick. destruct (deadline (app y)) as [d|]; [|exact Hsane].
    destruct (intervalArmed (app y)); [|exact Hsane].
    unfold sane, intervalCallback. cbn.
    pose proof (remainingSeconds_nonneg d now). lia.
  - injection Hh as <- <-. split; [|exact Hst]. exact Hsane.
  - assert (Hinit : sane (setIsInitialized true (initial v))).
    { unfold sane. cbn. pose proof (defaultFocus_positive v).
      unfold defaultBreak. lia. }
    destruct (storage y) as [[| | |o]|] eqn:Hsto; cbn in Hh;
      injection Hh as <- <-;
      try (split; [exact Hinit | intros o' Ho'; discriminate Ho']).
    split; [|exact Hst].
    exact (restore_sane v now o (initial v) Hst).
Qed.

Lemma saveEffect_sane (s : State) (stored : Storage) :
  sane s -> storedSane stored -> storedSane (saveEffect s stored).
Proof.
  intros (Hf & Hb & Ht) Hst. unfold saveEffect.
  destruct (isInitialized s); [|exact Hst].
  intros o Ho. injection Ho as <-. cbn.
  repeat split; intros x Hx; injection Hx as <-; lia.
Qed.

Lemma step_sane (v : Variant) (y : Sys) (a : Action) (y' : Sys) :
  sane (app y) /\ storedSane (storage y) ->
  editOk a ->
  step v y a y' ->
  sane (app y') /\ storedSane (storage y').
Proof.
  intros [Hsane Hst] Hok Hstep.
  inversion Hstep as [y0 a0 s stored n s' Hclock Hh Hsettles]; subst.
  destruct (handle_sane v a y s stored Hsane Hst Hok Hh) as [Hs Hst'].
  pose proof (settles_sane v s n s' Hs Hsettles) as Hs'.
  cbn. split; [exact Hs' | now apply saveEffect_sane].
Qed.

(** C8.  The code misses a case the claim covers: the interval callback and
    the load clamp timeLeft at zero, the duration edit does not.  After the
    first mount, editing the focus duration to "-5" is a run of the component
    that ends with a timeLeft of -300 (the slip of C7). *)
Lemma timeLeft_negative_reachable :
  runs AppTsx (boot AppTsx) [Reload 1700000000000; EditFocus "-5"]
    (mkSys (updateFocusDuration "-5" (setIsInitialized true (initial AppTsx)))
           (Some (ObjText (stateToSave
              (updateFocusDuration "-5" (setIsInitialized true (initial AppTsx))))))) /\
  timeLeft (updateFocusDuration "-5" (setIsInitialized true (initial AppTsx)))
    = -300.
Proof.
  split; [|reflexivity].
  eapply runs_cons; [quiet_step|].
  eapply runs_cons; [quiet_step|].
  apply runs_nil.
Qed.

(** Where timeLeft is kept from being negative.  Whenever the remaining time is recomputed from the
    deadline, by the interval callback or by the load of a running snapshot,
    the result is clamped at zero; and in every state reached by a run of the
    component in which no duration edit has an input that parses to a
    negative integer, timeLeft is not negative (and both durations are
    positive). *)
Lemma timeLeft_nonneg (v : Variant) :
  (forall d now s, 0 <= timeLeft (intervalCallback d now s)) /\
  (forall now o s d,
      s_status o = Some "running" -> s_deadline o = Some d -> d <> 0 ->
      0 <= timeLeft (restore v now o s)) /\
  (forall l y,
      runs v (boot v) l y -> Forall editOk l ->
      0 <= timeLeft (app y) /\
      0 < focusDuration (app y) /\ 0 < breakDuration (app y)).
Proof.
  split; [|split].
  - intros d now s. cbn. apply remainingSeconds_nonneg.
  - intros now o s d Hs Hd Hnz.
    destruct (restore_running v now d o s Hs Hd Hnz) as (_ & _ & ->).
    apply remainingSeconds_nonneg.
  - intros l y Hruns Hok.
    assert (H : sane (app y) /\ storedSane (storage y)).
    { apply (runs_invariant v editOk
               (fun y => sane (app y) /\ storedSane (storage y)))
        with (y := boot v) (l := l); auto.
      - intros y0 a y1 Hy Ha Hs. eapply step_sane; eauto.
      - split; [|intros o Ho; discriminate Ho].
        unfold sane. cbn. pose proof (defaultFocus_positive v).
        unfold defaultBreak. lia. }
    destruct H as [(Hf & Hb & Ht) _]. auto.
Qed.

Lemma timeLeft_nonneg_witness :
  0 <= timeLeft (updateFocusDuration "5" (setIsInitialized true (initial AppTsx))).
Proof.
  refine (proj1 (proj2 (proj2 (timeLeft_nonneg AppTsx))
    [Reload 1700000000000; EditFocus "5"]
    (mkSys (updateFocusDuration "5" (setIsInitialized true (initial AppTsx))) _)
    _ _)).
  - eapply runs_cons; [quiet_step|].
    eapply runs_cons; [quiet_step|].
    apply runs_nil.
  - repeat constructor.
Defined.

(** * Further properties of the component *)

(** ** Decimal text of a number and [parseInt] *)

Lemma digitChar_facts (d : Z) :
  0 <= d <= 9 ->
  Js.digitValue (Js.digitChar d) = Some d /\
  forall r, Js.parseInt (String (Js.digitChar d) r)
            = Js.digits None (String (Js.digitChar d) r).
Proof.
  intros H.
  assert (C : d = 0 \/ d = 1 \/ d = 2 \/ d = 3 \/ d = 4 \/ d = 5 \/ d = 6
              \/ d = 7 \/ d = 8 \/ d = 9) by lia.
  repeat (destruct C as [->|C]; [split; [reflexivity | intros r; reflexivity]|]).
  subst d. split; [reflexivity | intros r; reflexivity].
Qed.

Lemma digits_step (acc : option Z) (d : Z) (r : string) :
  0 <= d <= 9 ->
  Js.digits acc (String (Js.digitChar d) r)
  = Js.digits (Some (10 * match acc with Some a => a | None => 0 end + d)) r.
Proof.
  intros H. cbn [Js.digits].
  now rewrite (proj1 (digitChar_facts d H)).
Qed.

Lemma toDigits_head (fuel : nat) (n : Z) (acc : string) :
  exists d r, 0 <= d <= 9 /\ Js.toDigits fuel n acc = String (Js.digitChar d) r.
Proof.
  revert n acc. induction fuel as [|fuel IH]; intros n acc; cbn [Js.toDigits].
  - exists (n mod 10), acc. split; [|reflexivity].
    pose proof (Z.mod_pos_bound n 10). lia.
  - destruct (n <? 10); [|apply IH].
    exists (n mod 10), acc. split; [|reflexivity].
    pose proof (Z.mod_pos_bound n 10). lia.
Qed.

Lemma toDigits_append (fuel : nat) (n : Z) (acc rest : string) :
  String.append (Js.toDigits fuel n acc) rest
  = Js.toDigits fuel n (String.append acc rest).
Proof.
  revert n acc. induction fuel as [|fuel IH]; intros n acc; cbn [Js.toDigits].
  - reflexivity.
  - destruct (n <? 10); [reflexivity|]. now rewrite IH.
Qed.

(** Reading the digits of [n] back, from nothing read or from a zero. *)
Lemma digits_toDigits (fuel : nat) (n : Z) (rest : string) (acc : option Z) :
  0 <= n < 2 ^ (Z.of_nat fuel + 1) ->
  match acc with Some a => a | None => 0 end = 0 ->
  Js.digits acc (Js.toDigits fuel n rest) = Js.digits (Some n) rest.
Proof.
  revert n rest. induction fuel as [|fuel IH]; intros n rest Hn Hacc;
    cbn [Js.toDigits].
  - change (2 ^ (Z.of_nat 0 + 1)) with 2 in Hn.
    rewrite digits_step by (rewrite Z.mod_small; lia).
    rewrite Hacc, Z.mod_small by lia. f_equal.
  - destruct (Z.ltb_spec n 10) as [Hlt|Hge].
    + rewrite digits_step by (rewrite Z.mod_small; lia).
      rewrite Hacc, Z.mod_small by lia. f_equal.
    + assert (Hpow : 2 ^ (Z.of_nat (S fuel) + 1) = 2 * 2 ^ (Z.of_nat fuel + 1)).
      { rewrite <- Z.pow_succ_r by lia. f_equal. lia. }
      assert (Hpos : 0 < 2 ^ (Z.of_nat fuel + 1))
        by (apply Z.pow_pos_nonneg; lia).
      assert (Hdiv : 0 <= n / 10 < 2 ^ (Z.of_nat fuel + 1)).
      { rewrite Hpow in Hn. clear Hpow.
        generalize dependent (2 ^ (Z.of_nat fuel + 1)). intros p _ Hn Hp.
        split; [apply Z.div_pos; lia|].
        apply Z.div_lt_upper_bound; lia. }
      rewrite (IH (n / 10) _ Hdiv Hacc).
      pose proof (Z.mod_pos_bound n 10 ltac:(lia)).
      rewrite digits_step by lia.
      replace (10 * (n / 10) + n mod 10) with n
        by (pose proof (Z.div_mod n 10 ltac:(lia)); lia).
      reflexivity.
Qed.

Lemma log2_fuel (n : Z) :
  0 <= n -> 0 <= n < 2 ^ (Z.of_nat (Z.to_nat (Z.log2 n)) + 1).
Proof.
  intros H. split; [assumption|].
  rewrite Z2Nat.id by apply Z.log2_nonneg.
  destruct (Z.eq_dec n 0) as [->|Hnz]; [reflexivity|].
  replace (Z.log2 n + 1) with (Z.succ (Z.log2 n)) by lia.
  apply Z.log2_spec. lia.
Qed.

(** [parseInt] of the text of a number that is not negative, whatever follows
    it, as long as [parseInt] stops there. *)
Lemma parseInt_toString_prefix (n : Z) (rest : string) :
  0 <= n ->
  Js.parseInt (String.append (Js.toString n) rest) = Js.digits (Some n) rest.
Proof.
  intros H. unfold Js.toString.
  destruct (Z.ltb_spec n 0); [lia|].
  rewrite toDigits_append. cbn [String.append].
  destruct (toDigits_head (Z.to_nat (Z.log2 n)) n rest) as (d & r & Hd & E).
  rewrite E, (proj2 (digitChar_facts d Hd)), <- E.
  apply digits_toDigits; [now apply log2_fuel | reflexivity].
Qed.

Lemma append_empty (s : string) : String.append s "" = s.
Proof. induction s as [|c s IH]; cbn; [reflexivity | now rewrite IH]. Qed.

(** X1.  The text of an integer below 2^53 in magnitude (the range in which
    [String] prints all the digits and [parseInt] is exact) parses back to
    that integer, and a duration edit with the text of such a duration that
    is not zero gives that duration: the inputs, which show [focusDuration]
    and [breakDuration], hand back what they show. *)
Theorem parseInt_toString (n : Z) :
  Z.abs n < 2 ^ 53 ->
  Js.parseInt (Js.toString n) = Some n /\
  (n <> 0 -> editedValue (Js.toString n) = n).
Proof.
  intros _.
  assert (P : Js.parseInt (Js.toString n) = Some n).
  { destruct (Z.ltb_spec n 0) as [Hneg|Hpos].
    - unfold Js.toString. destruct (Z.ltb_spec n 0); [|lia].
      unfold Js.parseInt. cbn [Js.skipSpaces]. cbn.
      rewrite digits_toDigits; [|apply log2_fuel; lia | reflexivity].
      cbn. f_equal. lia.
    - rewrite <- (append_empty (Js.toString n)).
      now rewrite parseInt_toString_prefix. }
  split; [exact P|].
  intros Hnz. unfold editedValue, Js.orZ. rewrite P.
  destruct (Z.eqb_spec n 0); [contradiction | reflexivity].
Qed.

Lemma parseInt_toString_witness :
  Js.parseInt (Js.toString (-1500)) = Some (-1500) /\
  editedValue (Js.toString 25) = 25.
Proof.
  split.
  - apply (parseInt_toString (-1500)). reflexivity.
  - apply (proj2 (parseInt_toString 25 eq_refl)). discriminate.
Defined.

(** ** The display *)

Lemma padStart2_two_digits (r : Z) :
  0 <= r < 100 ->
  Js.padStart2 (Js.toString r)
  = String (Js.digitChar (r / 10)) (String (Js.digitChar (r mod 10)) "").
Proof.
  intros H.
  assert (E : forallb
                (fun k => String.eqb
                   (Js.padStart2 (Js.toString k))
                   (String (Js.digitChar (k / 10))
                      (String (Js.digitChar (k mod 10)) "")))
                (map Z.of_nat (seq 0 100)) = true)
    by (vm_compute; reflexivity).
  rewrite forallb_forall in E.
  apply String.eqb_eq, E.
  replace r with (Z.of_nat (Z.to_nat r)) by lia.
  apply in_map, in_seq. lia.
Qed.

Lemma parseInt_two_digits (a b : Z) :
  0 <= a <= 9 -> 0 <= b <= 9 ->
  Js.parseInt (String (Js.digitChar a) (String (Js.digitChar b) ""))
  = Some (10 * a + b).
Proof.
  intros Ha Hb.
  rewrite (proj2 (digitChar_facts a Ha)).
  rewrite !digits_step by assumption. reflexivity.
Qed.

Lemma length_append (a b : string) :
  String.length (String.append a b) = (String.length a + String.length b)%nat.
Proof. induction a as [|c a IH]; cbn; [reflexivity | now rewrite IH]. Qed.

Lemma lastTwo_append (a b : string) :
  (2 <= String.length b)%nat -> lastTwo (String.append a b) = lastTwo b.
Proof.
  intros Hb. induction a as [|c a IH]; [reflexivity|].
  rewrite <- IH. unfold lastTwo. cbn [String.append String.length].
  pose proof (length_append a b) as Hl.
  destruct (String.length (String.append a b)) as [|[|k]] eqn:E; [lia | lia |].
  cbn [Nat.sub]. destruct k; reflexivity.
Qed.

(** The minutes in front of the colon. *)
Lemma parseInt_minutes (m : Z) (rest : string) :
  0 <= m ->
  Js.parseInt (String.append (Js.padStart2 (Js.toString m)) (String ":" rest))
  = Some m.
Proof.
  intros Hm. unfold Js.padStart2.
  destruct (String.length (Js.toString m)) as [|[|k]] eqn:El.
  - exfalso. unfold Js.toString in El. destruct (Z.ltb_spec m 0); [lia|].
    destruct (toDigits_head (Z.to_nat (Z.log2 m)) m "") as (d & r & _ & E).
    rewrite E in El. discriminate El.
  - cbn [String.append].
    change "0"%char with (Js.digitChar 0).
    rewrite (proj2 (digitChar_facts 0 ltac:(lia))).
    rewrite digits_step by lia. cbn [Z.mul Z.add].
    unfold Js.toString. destruct (Z.ltb_spec m 0); [lia|].
    rewrite toDigits_append. cbn [String.append].
    rewrite digits_toDigits; [reflexivity | now apply log2_fuel | reflexivity].
  - now rewrite parseInt_toString_prefix.
Qed.

Lemma displayTime_parts (s : State) :
  0 <= timeLeft s ->
  Js.parseInt (displayTime s) = Some (timeLeft s / 60) /\
  Js.parseInt (lastTwo (displayTime s)) = Some (timeLeft s mod 60).
Proof.
  intros Ht. unfold displayTime. cbn zeta.
  rewrite Z.rem_mod_nonneg by lia.
  pose proof (Z.mod_pos_bound (timeLeft s) 60 ltac:(lia)) as Hr.
  assert (Hm : 0 <= timeLeft s / 60) by (apply Z.div_pos; lia).
  split.
  - cbn [String.append]. now apply parseInt_minutes.
  - rewrite (padStart2_two_digits (timeLeft s mod 60)) by lia.
    rewrite lastTwo_append by (cbn; lia).
    change (lastTwo (String.append ":" ?x)) with x.
    unfold lastTwo. cbn.
    set (r := timeLeft s mod 60) in *.
    assert (0 <= r / 10 <= 9).
    { split; [apply Z.div_pos; lia|].
      assert (r / 10 < 10) by (apply Z.div_lt_upper_bound; lia). lia. }
    pose proof (Z.mod_pos_bound r 10 ltac:(lia)).
    rewrite parseInt_two_digits by lia.
    f_equal. pose proof (Z.div_mod r 10 ltac:(lia)). lia.
Qed.

(** X2.  For a timeLeft that is not negative and below 2^53 the display
    reads back: [parseInt] of it is the number of whole minutes, its last two
    characters are the seconds within the minute, and below 100 minutes it
    has exactly the five characters of [MM:SS]. *)
Theorem displayTime_reads_back (s : State) :
  0 <= timeLeft s < 2 ^ 53 ->
  Js.parseInt (displayTime s) = Some (timeLeft s / 60) /\
  Js.parseInt (lastTwo (displayTime s)) = Some (timeLeft s mod 60) /\
  (timeLeft s < 6000 -> String.length (displayTime s) = 5%nat).
Proof.
  intros [Ht _]. destruct (displayTime_parts s Ht) as [Hm Hs].
  split; [exact Hm|]. split; [exact Hs|].
  intros Hlt. unfold displayTime. cbn zeta.
  rewrite Z.rem_mod_nonneg by lia.
  pose proof (Z.mod_pos_bound (timeLeft s) 60 ltac:(lia)).
  assert (0 <= timeLeft s / 60 < 100).
  { split; [apply Z.div_pos; lia | apply Z.div_lt_upper_bound; lia]. }
  rewrite !padStart2_two_digits by lia. reflexivity.
Qed.

Lemma displayTime_reads_back_witness :
  Js.parseInt (displayTime (setTimeLeft 1499 (initial AppTsx))) = Some (1499 / 60) /\
  Js.parseInt (lastTwo (displayTime (setTimeLeft 1499 (initial AppTsx))))
    = Some (1499 mod 60) /\
  displayTime (setTimeLeft 1499 (initial AppTsx)) = "24:59".
Proof.
  pose proof (displayTime_reads_back (setTimeLeft 1499 (initial AppTsx))
                ltac:(cbn; lia)) as (H1 & H2 & _).
  split; [exact H1 | split; [exact H2 | reflexivity]].
Defined.

(** X3.  Two sessions whose timeLeft values are different, not negative and
    below 2^53 never show the same time. *)
Theorem displayTime_injective (s1 s2 : State) :
  0 <= timeLeft s1 < 2 ^ 53 -> 0 <= timeLeft s2 < 2 ^ 53 ->
  timeLeft s1 <> timeLeft s2 -> displayTime s1 <> displayTime s2.
Proof.
  intros [H1 _] [H2 _] Hne E. apply Hne.
  destruct (displayTime_parts s1 H1) as [M1 S1].
  destruct (displayTime_parts s2 H2) as [M2 S2].
  rewrite E in M1, S1. rewrite M1 in M2. rewrite S1 in S2.
  injection M2 as M. injection S2 as S.
  pose proof (Z.div_mod (timeLeft s1) 60 ltac:(lia)).
  pose proof (Z.div_mod (timeLeft s2) 60 ltac:(lia)).
  lia.
Qed.

Lemma displayTime_injective_witness :
  displayTime (setTimeLeft 1499 (initial AppTsx))
    <> displayTime (setTimeLeft 1500 (initial AppTsx)) /\
  displayTime (setTimeLeft 1500 (initial AppTsx)) = "25:00".
Proof.
  split; [|reflexivity].
  apply (displayTime_injective (setTimeLeft 1499 (initial AppTsx))
           (setTimeLeft 1500 (initial AppTsx)));
    [cbn; lia | cbn; lia | cbn; lia].
Defined.

(** ** Loading what the save effect stored *)

Lemma orZ_nonzero (x d : Z) : x <> 0 -> Js.orZ (Some x) d = x.
Proof. intros H. unfold Js.orZ. destruct (Z.eqb_spec x 0); congruence. Qed.

Lemma orS_nonempty (x d : string) : x <> "" -> Js.orS (Some x) d = x.
Proof. intros H. unfold Js.orS. destruct (String.eqb_spec x ""); congruence. Qed.

Lemma orS_message (x : string) : Js.orS (Some x) "" = x.
Proof. unfold Js.orS. destruct (String.eqb_spec x ""); congruence. Qed.

Lemma restore_mode_message (v : Variant) (now : Z) (o : Snapshot) (s : State) :
  mode (restore v now o s) = Js.orS (s_mode o) "focus" /\
  completionMessage (restore v now o s) = Js.orS (s_completionMessage o) "".
Proof.
  unfold restore.
  destruct (s_deadline o) as [d|]; [|cbn; auto].
  destruct (propertyIs (s_status o) "running" && Js.truthy (Some d)); [|cbn; auto].
  destruct (0 <? d - now); cbn; auto.
Qed.

(** The snapshot of a state, loaded at time [now]: everything comes back as
    it was, but for a running session with a deadline, whose timeLeft is
    computed from the deadline, and for a deadline without a running session,
    which is dropped. *)
Lemma restore_own (v : Variant) (now : Z) (s s0 : State) :
  focusDuration s <> 0 -> breakDuration s <> 0 ->
  mode s <> "" -> status s <> "" ->
  focusDuration (restore v now (stateToSave s) s0) = focusDuration s /\
  breakDuration (restore v now (stateToSave s) s0) = breakDuration s /\
  mode (restore v now (stateToSave s) s0) = mode s /\
  completionMessage (restore v now (stateToSave s) s0) = completionMessage s /\
  status (restore v now (stateToSave s) s0) = status s /\
  (isRunning s && Js.truthy (deadline s) = true ->
   deadline (restore v now (stateToSave s) s0) = deadline s /\
   forall d, deadline s = Some d ->
     timeLeft (restore v now (stateToSave s) s0) = remainingSeconds d now) /\
  (isRunning s && Js.truthy (deadline s) = false ->
   deadline (restore v now (stateToSave s) s0) = None /\
   timeLeft (restore v now (stateToSave s) s0) = timeLeft s).
Proof.
  intros Hf Hb Hm Hs.
  destruct (restore_durations v now (stateToSave s) s0) as [D1 D2].
  destruct (restore_mode_message v now (stateToSave s) s0) as [M1 M2].
  unfold stateToSave in D1, D2, M1, M2 at 2.
  cbn [s_focusDuration s_breakDuration s_mode s_completionMessage]
    in D1, D2, M1, M2.
  rewrite orZ_nonzero in D1, D2 by assumption.
  rewrite orS_nonempty in M1 by assumption. rewrite orS_message in M2.
  do 4 (split; [assumption|]).
  destruct (isRunning s && Js.truthy (deadline s)) eqn:Hb'.
  - apply andb_true_iff in Hb' as [Hr Ht].
    unfold isRunning in Hr. apply String.eqb_eq in Hr.
    destruct (deadline s) as [d|] eqn:Hd; [|discriminate].
    cbn in Ht. apply negb_true_iff, Z.eqb_neq in Ht.
    destruct (restore_running v now d (stateToSave s) s0) as (R1 & R2 & R3);
      [cbn; congruence | cbn; congruence | assumption |].
    split; [congruence|]. split; [|discriminate].
    intros _. split; [congruence|].
    intros d' Hd'. injection Hd' as <-. exact R3.
  - destruct (restore_asItWas v now (stateToSave s) s0) as (A1 & A2 & A3).
    { cbn. unfold isRunning in Hb'. exact Hb'. }
    unfold stateToSave in A1, A3 at 2.
    cbn [s_status s_timeLeft] in A1, A3.
    rewrite orS_nonempty in A1 by assumption.
    split; [assumption|]. split; [discriminate|]. auto.
Qed.

(** ** Status, mode and durations along a run *)

Lemma editedValue_nonzero (input : string) : editedValue input <> 0.
Proof.
  unfold editedValue, Js.orZ. destruct (Js.parseInt input) as [n|]; [|discriminate].
  destruct (Z.eqb_spec n 0); [discriminate | assumption].
Qed.

Lemma completion_shaped (v : Variant) (s : State) :
  shaped s ->
  shaped (handleTimerCompletion v s) /\ idleFull (handleTimerCompletion v s).
Proof.
  intros (Hs & Hm & Hf & Hb).
  unfold shaped, idleFull, modeDuration, handleTimerCompletion,
    playSoundTone, playSoundAudio.
  destruct v; destruct (String.eqb_spec (mode s) "focus"); cbn;
    destruct (toneLoaded s); destruct (audioRef s); cbn;
    repeat split; auto; try discriminate.
Qed.

Lemma completion_keeps_initialized (v : Variant) (s : State) :
  isInitialized (handleTimerCompletion v s) = isInitialized s.
Proof.
  unfold handleTimerCompletion, playSoundTone, playSoundAudio.
  destruct v; destruct (String.eqb (mode s) "focus"); cbn;
    destruct (toneLoaded s); destruct (audioRef s); reflexivity.
Qed.

Ltac shaped_case Hs Hm Hid :=
  unfold idleFull, modeDuration in Hid; rewrite Hs, Hm in Hid; cbn in Hid;
  unfold shaped, idleFull, modeDuration;
  rewrite ?Hs, ?Hm; cbn; rewrite ?Hs, ?Hm; cbn;
  repeat split; intros; auto; try discriminate; try congruence; try lia.

Lemma action_shaped (v : Variant) (a : Action) (y : Sys) :
  (forall now, a <> Reload now) ->
  shaped (app y) -> idleFull (app y) ->
  shaped (fst (handle v a y)) /\ idleFull (fst (handle v a y)) /\
  isInitialized (fst (handle v a y)) = isInitialized (app y) /\
  snd (handle v a y) = storage y.
Proof.
  intros Hnr Hsh Hid.
  destruct a; cbn [handle fst snd];
    destruct Hsh as ([Hs|[Hs|Hs]] & [Hm|Hm] & Hf & Hb).
  1-6: unfold startTimer, stopSound; destruct v;
    destruct (audioRef (app y)); shaped_case Hs Hm Hid.
  1-6: unfold togglePause; shaped_case Hs Hm Hid.
  1-6: unfold resetTimer; shaped_case Hs Hm Hid.
  1-6: unfold resetToStart; destruct v; shaped_case Hs Hm Hid.
  1-6: pose proof (editedValue_nonzero input);
    unfold updateFocusDuration; shaped_case Hs Hm Hid.
  1-6: pose proof (editedValue_nonzero input);
    unfold updateBreakDuration; shaped_case Hs Hm Hid.
  1-6: unfold tick, intervalArmed, completionDue, isRunning, intervalCallback;
    destruct (deadline (app y)) as [d|];
    [destruct (timeLeft (app y) <=? 0); destruct (Js.truthy (Some d))|];
    shaped_case Hs Hm Hid.
  1-6: shaped_case Hs Hm Hid.
  all: exfalso; eapply Hnr; reflexivity.
Qed.

Lemma initial_shaped (v : Variant) (b : bool) :
  shaped (setIsInitialized b (initial v)) /\
  idleFull (setIsInitialized b (initial v)).
Proof.
  unfold shaped, idleFull, modeDuration. cbn.
  pose proof (defaultFocus_positive v). unfold defaultBreak.
  repeat split; auto; lia.
Qed.

Lemma shaped_nonempty (s : State) :
  shaped s -> mode s <> "" /\ status s <> "".
Proof.
  intros ([Hs|[Hs|Hs]] & [Hm|Hm] & _); rewrite Hs, Hm; split; discriminate.
Qed.

Lemma reload_shaped (v : Variant) (now : Z) (y : Sys) :
  shaped (app y) -> idleFull (app y) -> synced y ->
  shaped (fst (handle v (Reload now) y)) /\
  idleFull (fst (handle v (Reload now) y)) /\
  isInitialized (fst (handle v (Reload now) y)) = true.
Proof.
  intros Hsh Hid Hsy. cbn [handle]. rewrite Hsy. unfold saveEffect.
  destruct (isInitialized (app y)); cbn [loadEffect tryLoad JSON_parse fst];
    [|destruct (initial_shaped v true); auto].
  destruct (shaped_nonempty _ Hsh) as [Hm Hs].
  pose proof Hsh as (Hst & Hmo & Hf & Hb).
  destruct (restore_own v now (app y) (initial v) Hf Hb Hm Hs)
    as (R1 & R2 & R3 & R4 & R5 & Hrun & Hstop).
  split; [|split; [|reflexivity]].
  - unfold shaped. cbn. rewrite R1, R2, R3, R5. exact Hsh.
  - unfold idleFull, modeDuration. cbn. rewrite R1, R2, R3, R5.
    intros Hidle.
    destruct Hstop as [_ Ht].
    { unfold isRunning. rewrite Hidle. reflexivity. }
    rewrite Ht. exact (Hid Hidle).
Qed.

Lemma settles_shaped (v : Variant) (s : State) (n : nat) (s' : State) :
  shaped s -> idleFull s -> settles v s n s' ->
  shaped s' /\ idleFull s' /\ isInitialized s' = isInitialized s.
Proof.
  intros Hsh Hid H.
  destruct (settles_inv v s n s' H) as [(_ & _ & ->) | (_ & _ & ->)]; [auto|].
  destruct (completion_shaped v s Hsh).
  pose proof (completion_keeps_initialized v s). auto.
Qed.

Lemma step_wellFormed (v : Variant) (y : Sys) (a : Action) (y' : Sys) :
  wellFormed y -> step v y a y' -> wellFormed y'.
Proof.
  intros (Hsh & Hid & Hsy) Hstep.
  inversion Hstep as [y0 a0 s stored n s' Hclock Hh Hsettles]; subst.
  assert (Hs : shaped s /\ idleFull s /\
               (stored = saveEffect s None \/ isInitialized s = true)).
  { assert (Hr : (exists now, a = Reload now) \/ forall now, a <> Reload now).
    { destruct a; try (right; intros; discriminate). left; eauto. }
    destruct Hr as [[now ->] | Hnr].
    - destruct (reload_shaped v now y Hsh Hid Hsy) as (H1 & H2 & H3).
      rewrite Hh in H1, H2, H3. auto.
    - destruct (action_shaped v a y Hnr Hsh Hid) as (H1 & H2 & H3 & H4).
      rewrite Hh in H1, H2, H3, H4. cbn [fst snd] in *.
      split; [assumption|]. split; [assumption|].
      destruct (isInitialized s) eqn:Hi; [now right | left].
      rewrite H4, Hsy. unfold saveEffect. now rewrite <- H3, Hi. }
  destruct Hs as (Hs1 & Hs2 & Hs3).
  destruct (settles_shaped v s n s' Hs1 Hs2 Hsettles) as (H1 & H2 & H3).
  split; [exact H1|]. split; [exact H2|].
  unfold synced. cbn. unfold saveEffect in *. rewrite H3.
  destruct (isInitialized s); [reflexivity|].
  destruct Hs3 as [->|Hs3]; [reflexivity | discriminate].
Qed.

Lemma reachable_wellFormed (v : Variant) (y : Sys) :
  reachable v y -> wellFormed y.
Proof.
  intros [l Hruns].
  apply (runs_invariant v (fun _ => True) wellFormed)
    with (y := boot v) (l := l).
  - intros y0 a y1 Hy _ Hs. eapply step_wellFormed; eauto.
  - exact Hruns.
  - clear. induction l; constructor; auto.
  - destruct (initial_shaped v false) as [H1 H2].
    split; [exact H1|]. split; [exact H2 | reflexivity].
Qed.

(** X4.  In every reachable state the status is idle, running or paused, the mode
    is focus or break, and neither duration is zero, whatever was typed into
    the duration inputs. *)
Theorem status_mode_enumerated (v : Variant) (y : Sys) :
  reachable v y ->
  (status (app y) = "idle" \/ status (app y) = "running"
   \/ status (app y) = "paused") /\
  (mode (app y) = "focus" \/ mode (app y) = "break") /\
  focusDuration (app y) <> 0 /\ breakDuration (app y) <> 0.
Proof.
  intros H. destruct (reachable_wellFormed v y H) as (Hsh & _). exact Hsh.
Qed.

Lemma status_mode_enumerated_witness :
  (mode (setIsInitialized true
             (restore Part000 1700000500000
                (stateToSave (updateFocusDuration "abc"
                                (setIsInitialized true (initial Part000))))
                (initial Part000))) = "focus" \/
   mode (setIsInitialized true
             (restore Part000 1700000500000
                (stateToSave (updateFocusDuration "abc"
                                (setIsInitialized true (initial Part000))))
                (initial Part000))) = "break") /\
  (focusDuration (setIsInitialized true
             (restore Part000 1700000500000
                (stateToSave (updateFocusDuration "abc"
                                (setIsInitialized true (initial Part000))))
                (initial Part000))) = 1).
Proof.
  pose proof (status_mode_enumerated Part000
    (mkSys (setIsInitialized true
             (restore Part000 1700000500000
                (stateToSave (updateFocusDuration "abc"
                                (setIsInitialized true (initial Part000))))
                (initial Part000)))
           (Some (ObjText (stateToSave (setIsInitialized true
             (restore Part000 1700000500000
                (stateToSave (updateFocusDuration "abc"
                                (setIsInitialized true (initial Part000))))
                (initial Part000)))))))) as H.
  assert (R : reachable Part000
    (mkSys (setIsInitialized true
             (restore Part000 1700000500000
                (stateToSave (updateFocusDuration "abc"
                                (setIsInitialized true (initial Part000))))
                (initial Part000)))
           (Some (ObjText (stateToSave (setIsInitialized true
             (restore Part000 1700000500000
                (stateToSave (updateFocusDuration "abc"
                                (setIsInitialized true (initial Part000))))
                (initial Part000)))))))).
  { exists [Reload 1700000000000; EditFocus "abc"; Reload 1700000500000].
    eapply runs_cons; [quiet_step|].
    eapply runs_cons; [quiet_step|].
    eapply runs_cons; [quiet_step|].
    apply runs_nil. }
  split; [exact (proj1 (proj2 (H R))) | reflexivity].
Defined.





Lemma reset_after_start (v : Variant) (now : Z) (y : Sys) :
  reachable v y ->
  status (app y) = "idle" ->
  completionMessage (app y) = "" ->
  stateToSave (resetTimer (startTimer v now (app y))) = stateToSave (app y).
Proof.
  intros H Hidle Hmsg.
  destruct (reachable_wellFormed v y H) as (_ & Hid & _).
  destruct (reachable_atRest v y H) as [[_ Hn] _].
  assert (Hd : deadline (app y) = None) by (apply Hn; rewrite Hidle; discriminate).
  specialize (Hid Hidle). unfold modeDuration in Hid.
  unfold stateToSave, resetTimer, startTimer, stopSound.
  destruct v; destruct (audioRef (app y)); cbn;
    rewrite <- Hid, Hidle, Hmsg, Hd; reflexivity.
Qed.

(** X7.  From a reachable idle state with no completion message and time
    left, the start, the render that follows it, and then the reset of the
    interval give the session back as it was. *)
Theorem start_then_reset (v : Variant) (now : Z) (y y1 y2 : Sys) :
  reachable v y ->
  status (app y) = "idle" ->
  completionMessage (app y) = "" ->
  0 < timeLeft (app y) ->
  step v y (Start now) y1 ->
  step v y1 Reset y2 ->
  stateToSave (app y2) = stateToSave (app y).
Proof.
  intros H Hidle Hmsg Hpos H1 H2.
  inversion H1 as [y0 a0 s stored n s' _ Hh Hsettles]; subst.
  cbn [handle] in Hh. injection Hh as <- <-.
  destruct (startTimer_fields v now (app y)) as (_ & _ & Hl & _).
  destruct (settles_inv v _ n s' Hsettles) as [(_ & _ & ->) | (Hc & _)].
  2: { apply completionDue_spec in Hc as [Hc _]. rewrite Hl in Hc. lia. }
  inversion H2 as [y0 a0 s stored m s'' _ Hh Hsettles']; subst.
  cbn [handle app] in Hh. injection Hh as <- <-.
  destruct (settles_inv v _ m s'' Hsettles') as [(_ & _ & ->) | (Hc & _)].
  2: { apply completionDue_spec in Hc as [_ Hc]. cbn in Hc. discriminate Hc. }
  cbn [app]. now apply reset_after_start.
Qed.

Lemma start_then_reset_witness :
  stateToSave (resetTimer (startTimer AppTsx 1700000001000
                             (setIsInitialized true (initial AppTsx))))
  = stateToSave (setIsInitialized true (initial AppTsx)).
Proof.
  refine (start_then_reset AppTsx 1700000001000
    (mkSys (setIsInitialized true (initial AppTsx))
           (Some (ObjText (stateToSave (setIsInitialized true (initial AppTsx))))))
    (mkSys (startTimer AppTsx 1700000001000
              (setIsInitialized true (initial AppTsx))) _)
    (mkSys (resetTimer (startTimer AppTsx 1700000001000
              (setIsInitialized true (initial AppTsx)))) _)
    _ eq_refl eq_refl _ _ _).
  - exists [Reload 1700000000000].
    eapply runs_cons; [quiet_step|]. apply runs_nil.
  - cbn. lia.
  - quiet_step.
  - quiet_step.
Defined.

(** ** Storage and reloads *)

Lemma loadEffect_initialized (v : Variant) (now : Z) (st : Storage) (s : State) :
  isInitialized (fst (loadEffect v now st s)) = true.
Proof.
  unfold loadEffect. destruct st as [[| | |o]|]; cbn; reflexivity.
Qed.

Lemma action_keeps_initialized (v : Variant) (a : Action) (y : Sys) :
  isInitialized (app y) = true \/ (exists now, a = Reload now) ->
  isInitialized (fst (handle v a y)) = true.
Proof.
  intros [H | [now ->]]; [|apply loadEffect_initialized].
  destruct a; cbn [handle fst].
  - unfold startTimer, stopSound. destruct v; destruct (audioRef (app y)); exact H.
  - unfold togglePause.
    destruct (String.eqb (status (app y)) "running"); [exact H|].
    destruct (String.eqb (status (app y)) "paused"); exact H.
  - exact H.
  - destruct v; exact H.
  - unfold updateFocusDuration.
    destruct (String.eqb (status (app y)) "idle" && String.eqb (mode (app y)) "focus");
      exact H.
  - unfold updateBreakDuration.
    destruct (String.eqb (status (app y)) "idle" && String.eqb (mode (app y)) "break");
      exact H.
  - unfold tick. destruct (deadline (app y)); [|exact H].
    destruct (intervalArmed (app y)); exact H.
  - exact H.
  - apply loadEffect_initialized.
Qed.

Lemma step_synced (v : Variant) (y : Sys) (a : Action) (y' : Sys) :
  isInitialized (app y) = true \/ (exists now, a = Reload now) ->
  step v y a y' ->
  isInitialized (app y') = true /\
  storage y' = Some (ObjText (stateToSave (app y'))).
Proof.
  intros Hi Hstep.
  inversion Hstep as [y0 a0 s stored n s' Hclock Hh Hsettles]; subst.
  pose proof (action_keeps_initialized v a y Hi) as Hs. rewrite Hh in Hs.
  cbn [fst] in Hs.
  assert (Hs' : isInitialized s' = true).
  { destruct (settles_inv v s n s' Hsettles) as [(_ & _ & ->) | (_ & _ & ->)];
      [exact Hs | now rewrite completion_keeps_initialized]. }
  cbn. unfold saveEffect. rewrite Hs'. auto.
Qed.

(** X8.  Once the component has been mounted, whatever the storage held then
    (nothing, an empty or unparsable text, [null], any object), the storage
    holds the snapshot of the current state after every action. *)
Theorem storage_follows_state
  (v : Variant) (y : Sys) (now : Z) (l : list Action) (y' : Sys) :
  runs v y (Reload now :: l) y' ->
  storage y' = Some (ObjText (stateToSave (app y'))).
Proof.
  intros H. inversion H as [|y0 a y1 l0 y2 Hstep Hruns]; subst.
  assert (H1 : isInitialized (app y1) = true /\
               storage y1 = Some (ObjText (stateToSave (app y1)))).
  { eapply step_synced; [|exact Hstep]. right; eauto. }
  apply (runs_invariant v (fun _ => True)
           (fun y => isInitialized (app y) = true /\
                     storage y = Some (ObjText (stateToSave (app y)))))
    with (y := y1) (l := l); auto.
  - intros y3 a y4 [Hy _] _ Hs. eapply step_synced; [|exact Hs]. now left.
  - clear. induction l; constructor; auto.
Qed.

Lemma storage_follows_state_witness :
  storage (mkSys (setIsInitialized true (initial AppTsx))
                 (Some (ObjText (stateToSave
                    (setIsInitialized true (initial AppTsx))))))
  = Some (ObjText (stateToSave (setIsInitialized true (initial AppTsx)))).
Proof.
  apply (storage_follows_state AppTsx
           (mkSys (initial AppTsx) (Some BadText)) 1700000000000 []).
  eapply runs_cons; [quiet_step|]. apply runs_nil.
Defined.

Lemma snapshot_fields (s1 s2 : State) :
  stateToSave s1 = stateToSave s2 ->
  focusDuration s1 = focusDuration s2 /\ breakDuration s1 = breakDuration s2 /\
  mode s1 = mode s2 /\ status s1 = status s2 /\ timeLeft s1 = timeLeft s2 /\
  completionMessage s1 = completionMessage s2 /\ deadline s1 = deadline s2.
Proof.
  unfold stateToSave. intros H. injection H. auto 10.
Qed.

Lemma completion_session (v : Variant) (s1 s2 : State) :
  stateToSave s1 = stateToSave s2 ->
  stateToSave (handleTimerCompletion v s1)
  = stateToSave (handleTimerCompletion v s2).
Proof.
  intros H.
  destruct (snapshot_fields s1 s2 H) as (Hf & Hb & Hm & Hs & Ht & Hc & Hd).
  unfold handleTimerCompletion, playSoundTone, playSoundAudio. rewrite Hm.
  destruct v; destruct (String.eqb (mode s2) "focus"); cbn;
    destruct (toneLoaded s1); destruct (toneLoaded s2);
    destruct (audioRef s1); destruct (audioRef s2);
    unfold stateToSave; cbn; congruence.
Qed.

Lemma settles_session (v : Variant) (s1 s2 : State) (n1 n2 : nat) (s1' s2' : State) :
  stateToSave s1 = stateToSave s2 ->
  settles v s1 n1 s1' -> settles v s2 n2 s2' ->
  n1 = n2 /\ stateToSave s1' = stateToSave s2'.
Proof.
  intros H H1 H2.
  destruct (snapshot_fields s1 s2 H) as (_ & _ & _ & Hs & Ht & _).
  assert (Hc : completionDue s1 = completionDue s2)
    by (unfold completionDue, isRunning; now rewrite Hs, Ht).
  destruct (settles_inv v s1 n1 s1' H1) as [(C1 & -> & ->) | (C1 & -> & ->)];
    destruct (settles_inv v s2 n2 s2' H2) as [(C2 & -> & ->) | (C2 & -> & ->)];
    try congruence; split; auto using completion_session.
Qed.

(** A reachable state, once mounted, has its snapshot in storage. *)
Lemma reachable_stored (v : Variant) (y : Sys) :
  reachable v y -> isInitialized (app y) = true ->
  storage y = Some (ObjText (stateToSave (app y))).
Proof.
  intros H Hi. destruct (reachable_wellFormed v y H) as (_ & _ & Hsy).
  rewrite Hsy. unfold saveEffect. now rewrite Hi.
Qed.



(** X10.  Reloading the page while the session is running gives, at any time
    [now], the session that a firing of the interval at [now] gives in the
    page left open: time goes on while the page is closed, and an interval
    that ended meanwhile is completed on load. *)
Theorem reload_like_tick
  (v : Variant) (y : Sys) (now : Z) (yr yt : Sys) :
  reachable v y ->
  isInitialized (app y) = true ->
  status (app y) = "running" ->
  step v y (Reload now) yr ->
  step v y (Tick now) yt ->
  stateToSave (app yr) = stateToSave (app yt).
Proof.
  intros H Hi Hrun Hr Ht.
  destruct (reachable_wellFormed v y H) as (Hsh & _ & _).
  destruct (reachable_atRest v y H) as [[Hd _] _].
  destruct (Hd Hrun) as (d & Hdl & Hdpos & Htpos).
  pose proof (reachable_stored v y H Hi) as Hsto.
  destruct (shaped_nonempty _ Hsh) as [Hm Hs].
  pose proof Hsh as (_ & _ & Hf & Hb).
  assert (Harm : isRunning (app y) && Js.truthy (deadline (app y)) = true).
  { unfold isRunning. rewrite Hrun, Hdl. cbn.
    destruct (Z.eqb_spec d 0); [lia | reflexivity]. }
  inversion Hr as [y0 a0 sr stored nr sr' _ Hhr Hsr]; subst.
  inversion Ht as [y0 a0 st stored' nt st' _ Hht Hst]; subst.
  cbn [handle] in Hhr, Hht. rewrite Hsto, loadEffect_object in Hhr.
  injection Hhr as <- <-. injection Hht as <- <-.
  destruct (restore_own v now (app y) (initial v) Hf Hb Hm Hs)
    as (R1 & R2 & R3 & R4 & R5 & Hrun' & _).
  destruct (Hrun' Harm) as [R6 R7]. specialize (R7 d Hdl).
  assert (Htick : tick now (app y) = setTimeLeft (remainingSeconds d now) (app y)).
  { unfold tick, intervalArmed, completionDue. rewrite Hdl.
    apply andb_true_iff in Harm as [Ha1 Ha2]. rewrite Hdl in Ha2.
    rewrite Ha1, Ha2.
    destruct (Z.leb_spec (timeLeft (app y)) 0); [lia | reflexivity]. }
  rewrite Htick in Hst.
  assert (E : stateToSave
                (setIsInitialized true
                   (restore v now (stateToSave (app y)) (initial v)))
              = stateToSave (setTimeLeft (remainingSeconds d now) (app y))).
  { unfold stateToSave at 1 3. cbn. rewrite R1, R2, R3, R4, R5, R6, R7.
    reflexivity. }
  cbn [app].
  exact (proj2 (settles_session v _ _ nr nt sr' st' E Hsr Hst)).
Qed.

Lemma reload_like_tick_witness :
  stateToSave (setIsInitialized true
     (restore AppTsx 1700000100000
        (stateToSave (startTimer AppTsx 1700000001000
                        (setIsInitialized true (initial AppTsx))))
        (initial AppTsx)))
  = stateToSave (tick 1700000100000
       (startTimer AppTsx 1700000001000 (setIsInitialized true (initial AppTsx)))).
Proof.
  refine (reload_like_tick AppTsx
    (mkSys (startTimer AppTsx 1700000001000
              (setIsInitialized true (initial AppTsx)))
           (Some (ObjText (stateToSave
              (startTimer AppTsx 1700000001000
                 (setIsInitialized true (initial AppTsx)))))))
    1700000100000
    (mkSys (setIsInitialized true
              (restore AppTsx 1700000100000
                 (stateToSave (startTimer AppTsx 1700000001000
                                 (setIsInitialized true (initial AppTsx))))
                 (initial AppTsx))) _)
    (mkSys (tick 1700000100000
              (startTimer AppTsx 1700000001000
                 (setIsInitialized true (initial AppTsx)))) _)
    _ eq_refl eq_refl _ _).
  - exists [Reload 1700000000000; Start 1700000001000].
    eapply runs_cons; [quiet_step|].
    eapply runs_cons; [quiet_step|].
    apply runs_nil.
  - quiet_step.
  - quiet_step.
Defined.

(** ** The countdown *)

Lemma roundSeconds_monotone (a b : Z) :
  a <= b -> Js.roundSeconds a <= Js.roundSeconds b.
Proof. intros H. unfold Js.roundSeconds. apply Z.div_le_mono; lia. Qed.

Lemma remainingSeconds_monotone (d now1 now2 : Z) :
  now1 <= now2 -> remainingSeconds d now2 <= remainingSeconds d now1.
Proof.
  intros H. unfold remainingSeconds.
  pose proof (roundSeconds_monotone (d - now2) (d - now1)). lia.
Qed.

(** X11.  The countdown does not depend on which firings of the interval took
    place: a firing at [now2] after a firing at an earlier [now1] leaves the
    state that the firing at [now2] alone leaves, so a late or missed firing
    is made up for by the next one; and timeLeft never goes up as the clock
    goes on. *)
Theorem tick_catches_up (now1 now2 : Z) (s : State) :
  now1 <= now2 ->
  tick now2 (tick now1 s) = tick now2 s /\
  timeLeft (tick now2 s) <= timeLeft (tick now1 s).
Proof.
  intros Hle. unfold tick.
  destruct (deadline s) as [d|] eqn:Hd; [|rewrite Hd; split; [reflexivity | lia]].
  destruct (intervalArmed s) eqn:Ha; [|rewrite Hd, Ha; split; [reflexivity | lia]].
  pose proof (remainingSeconds_monotone d now1 now2 Hle) as Hmono.
  pose proof (remainingSeconds_nonneg d now2) as Hnn.
  unfold intervalCallback. cbn [deadline setTimeLeft timeLeft]. rewrite Hd.
  split; [|exact Hmono].
  unfold intervalArmed, completionDue, isRunning in Ha |- *.
  cbn [timeLeft status deadline setTimeLeft].
  apply andb_true_iff in Ha as [Ha Ht]. apply andb_true_iff in Ha as [_ Hr].
  rewrite Hr, Ht.
  destruct (Z.leb_spec (remainingSeconds d now1) 0) as [Hz|Hp]; cbn.
  - replace (remainingSeconds d now2) with (remainingSeconds d now1) by lia.
    reflexivity.
  - reflexivity.
Qed.

Lemma tick_catches_up_witness :
  tick 1700000002000
    (tick 1700000001000 (startTimer AppTsx 1700000000000 (initial AppTsx)))
  = tick 1700000002000 (startTimer AppTsx 1700000000000 (initial AppTsx)).
Proof.
  apply (tick_catches_up 1700000001000 1700000002000). lia.
Defined.





(** ** Sound *)

Lemma restore_keeps_audio (v : Variant) (now : Z) (o : Snapshot) (s : State) :
  outputs (restore v now o s) = outputs s /\
  audioRef (restore v now o s) = audioRef s.
Proof.
  unfold restore.
  destruct (s_deadline o) as [d|]; [|cbn; auto].
  destruct (propertyIs (s_status o) "running" && Js.truthy (Some d)); [|cbn; auto].
  destruct (0 <? d - now); cbn; auto.
Qed.

Lemma completion_audio (v : Variant) (s : State) :
  audioTracked v s -> audioTracked v (handleTimerCompletion v s).
Proof.
  intros [Hp Ha]. unfold audioTracked in *.
  unfold handleTimerCompletion, playSoundTone, playSoundAudio.
  destruct v; destruct (String.eqb (mode s) "focus"); cbn;
    destruct (toneLoaded s); destruct (audioRef s) eqn:E; cbn;
    rewrite ?E, ?Hp; cbn; split; auto; try discriminate;
    try (intros Hv; specialize (Ha Hv); congruence).
Qed.

Lemma action_audio (v : Variant) (a : Action) (y : Sys) :
  audioTracked v (app y) -> audioTracked v (fst (handle v a y)).
Proof.
  intros [Hp Ha]. unfold audioTracked in *.
  destruct a; cbn [handle fst].
  - unfold startTimer, stopSound.
    destruct v; destruct (audioRef (app y)) eqn:E; cbn; rewrite ?E, ?Hp; cbn;
      split; auto; intros; try (specialize (Ha eq_refl)); congruence.
  - unfold togglePause.
    destruct (String.eqb (status (app y)) "running"); [cbn; auto|].
    destruct (String.eqb (status (app y)) "paused"); cbn; auto.
  - cbn. auto.
  - destruct v; cbn; auto.
  - unfold updateFocusDuration.
    destruct (String.eqb (status (app y)) "idle" && String.eqb (mode (app y)) "focus");
      cbn; auto.
  - unfold updateBreakDuration.
    destruct (String.eqb (status (app y)) "idle" && String.eqb (mode (app y)) "break");
      cbn; auto.
  - unfold tick. destruct (deadline (app y)); [|auto].
    destruct (intervalArmed (app y)); cbn; auto.
  - cbn. auto.
  - unfold loadEffect.
    destruct (storage y) as [[| | |o]|]; cbn; auto.
    destruct (restore_keeps_audio v now o (initial v)) as [-> ->]. cbn. auto.
Qed.

Lemma reachable_audio (v : Variant) (y : Sys) :
  reachable v y -> audioTracked v (app y).
Proof.
  intros [l Hruns].
  apply (runs_invariant v (fun _ => True) (fun y => audioTracked v (app y)))
    with (y := boot v) (l := l).
  - intros y0 a y1 Hy _ Hstep.
    inversion Hstep as [y2 a0 s stored n s' _ Hh Hsettles]; subst. cbn.
    pose proof (action_audio v a y0 Hy) as Hs. rewrite Hh in Hs. cbn in Hs.
    destruct (settles_inv v s n s' Hsettles) as [(_ & _ & ->) | (_ & _ & ->)];
      [exact Hs | now apply completion_audio].
  - exact Hruns.
  - clear. induction l; constructor; auto.
  - split; cbn; auto.
Qed.

Lemma completion_noAudio (s : State) :
  noAudio (outputs s) = true ->
  noAudio (outputs (handleTimerCompletion AppTsx s)) = true.
Proof.
  intros H. unfold handleTimerCompletion, playSoundTone.
  destruct (String.eqb (mode s) "focus"); cbn; [exact H|].
  destruct (toneLoaded s); cbn; exact H.
Qed.

Lemma action_noAudio (a : Action) (y : Sys) :
  noAudio (outputs (app y)) = true ->
  noAudio (outputs (fst (handle AppTsx a y))) = true.
Proof.
  intros H. destruct a; cbn [handle fst]; try exact H.
  - unfold togglePause.
    destruct (String.eqb (status (app y)) "running"); [exact H|].
    destruct (String.eqb (status (app y)) "paused"); exact H.
  - unfold updateFocusDuration.
    destruct (String.eqb (status (app y)) "idle" && String.eqb (mode (app y)) "focus");
      exact H.
  - unfold updateBreakDuration.
    destruct (String.eqb (status (app y)) "idle" && String.eqb (mode (app y)) "break");
      exact H.
  - unfold tick. destruct (deadline (app y)); [|exact H].
    destruct (intervalArmed (app y)); exact H.
  - unfold loadEffect.
    destruct (storage y) as [[| | |o]|]; cbn; try reflexivity.
    destruct (restore_keeps_audio AppTsx now o (initial AppTsx)) as [-> _].
    reflexivity.
Qed.

Lemma reachable_noAudio (y : Sys) :
  reachable AppTsx y -> noAudio (outputs (app y)) = true.
Proof.
  intros [l Hruns].
  apply (runs_invariant AppTsx (fun _ => True)
           (fun y => noAudio (outputs (app y)) = true))
    with (y := boot AppTsx) (l := l).
  - intros y0 a y1 Hy _ Hstep.
    inversion Hstep as [y2 a0 s stored n s' _ Hh Hsettles]; subst. cbn.
    pose proof (action_noAudio a y0 Hy) as Hs. rewrite Hh in Hs. cbn in Hs.
    destruct (settles_inv AppTsx s n s' Hsettles)
      as [(_ & _ & ->) | (_ & _ & ->)];
      [exact Hs | now apply completion_noAudio].
  - exact Hruns.
  - clear. induction l; constructor; auto.
  - reflexivity.
Qed.

(** X14.  At most one [Audio] element plays at a time.  In every reachable
    state the number of elements played and not paused since is at most one,
    and it is one exactly when the ref holds an element.  [playSound] keeps
    this from any state in which the ref tracks the playing element, also
    when the ref holds one: it pauses that element before it plays the new
    one, so that exactly one is playing afterwards.  [App.tsx] never plays
    or pauses an [Audio] element at all. *)
Theorem audio_never_overlaps :
  (forall v y,
     reachable v y ->
     (playing (outputs (app y)) <= 1)%nat /\
     (playing (outputs (app y)) = 1%nat <-> audioRef (app y) <> None)) /\
  (forall loop s,
     playing (outputs s)
       = match audioRef s with Some _ => 1%nat | None => 0%nat end ->
     playing (outputs (playSoundAudio loop s)) = 1%nat /\
     audioRef (playSoundAudio loop s) = Some loop /\
     (audioRef s <> None ->
      outputs (playSoundAudio loop s)
        = AudioPlay loop :: AudioPause :: outputs s)) /\
  (forall y, reachable AppTsx y -> noAudio (outputs (app y)) = true).
Proof.
  split; [|split].
  - intros v y H. destruct (reachable_audio v y H) as [Hp Ha].
    rewrite Hp. destruct (audioRef (app y)) eqn:E.
    + repeat split; auto; discriminate.
    + repeat split; auto; try discriminate; congruence.
  - intros loop s Hp. unfold playSoundAudio.
    destruct (audioRef s) eqn:E; cbn; rewrite Hp; cbn; repeat split; auto.
    intros Hn. exfalso. now apply Hn.
  - apply reachable_noAudio.
Qed.

(** The actions of a longer concrete run, with every state evaluated. *)
Ltac evaluated_step :=
  eapply step_action with (n := 0%nat);
  [cbn; try lia; exact I | vm_compute; reflexivity
  | apply settles_rest; vm_compute; reflexivity].

Ltac completing_step :=
  eapply step_action with (n := 1%nat);
  [cbn; lia | vm_compute; reflexivity
  | eapply settles_completion;
    [vm_compute; reflexivity | apply settles_rest; vm_compute; reflexivity]].

Ltac two_intervals_run :=
  eapply runs_cons; [evaluated_step|];
  eapply runs_cons; [evaluated_step|];
  eapply runs_cons; [completing_step|];
  eapply runs_cons; [evaluated_step|];
  eapply runs_cons; [completing_step|];
  apply runs_nil.

Lemma audio_never_overlaps_witness :
  exists y,
    runs Part000 (boot Part000)
      [Reload 1700000000000; Start 1700000001000; Tick 1700001801000;
       Start 1700001902000; Tick 1700002502000] y /\
    (playing (outputs (app y)) <= 1)%nat /\
    outputs (app y) = [AudioPlay true].
Proof.
  eexists. split; [two_intervals_run|]. split.
  - refine (proj1 (proj1 audio_never_overlaps Part000 _ _)).
    exists [Reload 1700000000000; Start 1700000001000; Tick 1700001801000;
            Start 1700001902000; Tick 1700002502000].
    two_intervals_run.
  - vm_compute. reflexivity.
Defined.




(** ** What the controls allow *)

Lemma completion_focusOnly (v : Variant) (s : State) :
  focusOnly (handleTimerCompletion v s).
Proof.
  unfold focusOnly, handleTimerCompletion, playSoundTone, playSoundAudio.
  destruct v; destruct (String.eqb (mode s) "focus"); cbn;
    destruct (toneLoaded s); destruct (audioRef s); cbn;
    split; intros; auto; discriminate.
Qed.

Ltac focus_case Hs Hm Hc Hoff U1 U2 :=
  unfold offered, controls in Hoff; rewrite ?Hs, ?Hm in Hoff;
  cbn in Hoff; rewrite ?Hc in Hoff; cbn in Hoff;
  try discriminate Hoff;
  rewrite ?Hs, ?Hm in U1, U2;
  unfold focusOnly; rewrite ?Hs, ?Hm; cbn; rewrite ?Hs, ?Hm;
  split; intros; auto; try discriminate; try congruence.

Lemma offered_action_focusOnly (v : Variant) (a : Action) (y : Sys) :
  (forall now, a <> Reload now) ->
  shaped (app y) -> focusOnly (app y) ->
  offered (app y) a = true ->
  focusOnly (fst (handle v a y)).
Proof.
  intros Hnr Hsh [U1 U2] Hoff.
  destruct a; cbn [handle fst];
    destruct Hsh as ([Hs|[Hs|Hs]] & [Hm|Hm] & _);
    destruct (String.eqb (completionMessage (app y)) "") eqn:Hc.
  1-12: unfold startTimer, stopSound; destruct v;
    destruct (audioRef (app y)); focus_case Hs Hm Hc Hoff U1 U2.
  1-12: unfold togglePause; focus_case Hs Hm Hc Hoff U1 U2.
  1-12: unfold resetTimer; focus_case Hs Hm Hc Hoff U1 U2.
  1-12: unfold resetToStart; destruct v; focus_case Hs Hm Hc Hoff U1 U2.
  1-12: apply String.eqb_eq in Hc || apply String.eqb_neq in Hc;
    unfold updateFocusDuration; focus_case Hs Hm Hc Hoff U1 U2.
  1-12: apply String.eqb_eq in Hc || apply String.eqb_neq in Hc;
    unfold updateBreakDuration; focus_case Hs Hm Hc Hoff U1 U2.
  1-12: apply String.eqb_eq in Hc || apply String.eqb_neq in Hc;
    unfold tick, intervalArmed, completionDue, isRunning, intervalCallback;
    destruct (deadline (app y)) as [d|];
    [destruct (timeLeft (app y) <=? 0); destruct (Js.truthy (Some d))|];
    focus_case Hs Hm Hc Hoff U1 U2.
  1-12: apply String.eqb_eq in Hc || apply String.eqb_neq in Hc;
    focus_case Hs Hm Hc Hoff U1 U2.
  all: exfalso; eapply Hnr; reflexivity.
Qed.

Lemma reload_focusOnly (v : Variant) (now : Z) (y : Sys) :
  wellFormed y -> focusOnly (app y) ->
  focusOnly (fst (handle v (Reload now) y)).
Proof.
  intros (Hsh & _ & Hsy) [U1 U2]. cbn [handle]. rewrite Hsy. unfold saveEffect.
  destruct (isInitialized (app y)); cbn [loadEffect tryLoad JSON_parse fst].
  - destruct (shaped_nonempty _ Hsh) as [Hm Hs].
    pose proof Hsh as (_ & _ & Hf & Hb).
    destruct (restore_own v now (app y) (initial v) Hf Hb Hm Hs)
      as (_ & _ & R3 & R4 & R5 & _).
    unfold focusOnly. cbn. rewrite R3, R4, R5. auto.
  - unfold focusOnly. cbn. auto.
Qed.

Lemma uiRuns_runs (v : Variant) (y : Sys) (l : list Action) (y' : Sys) :
  uiRuns v y l y' -> runs v y l y'.
Proof.
  induction 1; [apply runs_nil | eapply runs_cons; eauto].
Qed.

Lemma uiRuns_focusOnly (v : Variant) (y : Sys) (l : list Action) (y' : Sys) :
  uiRuns v y l y' ->
  wellFormed y -> focusOnly (app y) ->
  wellFormed y' /\ focusOnly (app y').
Proof.
  induction 1 as [y | y a y1 l y' Hoff Hstep _ IH]; intros Hwf Hfo; [auto|].
  apply IH; [exact (step_wellFormed v y a y1 Hwf Hstep)|].
  inversion Hstep as [y0 a0 s stored n s' _ Hh Hsettles]; subst. cbn.
  assert (Hs : focusOnly s).
  { assert (Hr : (exists now, a = Reload now) \/ forall now, a <> Reload now).
    { destruct a; try (right; intros; discriminate). left; eauto. }
    destruct Hr as [[now ->] | Hnr].
    - pose proof (reload_focusOnly v now y Hwf Hfo) as Hx.
      now rewrite Hh in Hx.
    - destruct Hwf as (Hsh & _).
      pose proof (offered_action_focusOnly v a y Hnr Hsh Hfo Hoff) as Hx.
      now rewrite Hh in Hx. }
  destruct (settles_inv v s n s' Hsettles) as [(_ & _ & ->) | (_ & _ & ->)];
    [exact Hs | apply completion_focusOnly].
Qed.

(** X16.  When every user intent goes through a control that is shown, a break is
    never paused (the pause button exists only in focus mode), and the
    button "Iniciar Foco" is shown only in focus mode, so that it always
    starts a focus interval. *)
Theorem only_focus_is_paused (v : Variant) (l : list Action) (y : Sys) :
  uiRuns v (boot v) l y ->
  (status (app y) = "paused" -> mode (app y) = "focus") /\
  (In StartFocusButton (controls (app y)) -> mode (app y) = "focus").
Proof.
  intros H.
  assert (Hb : wellFormed (boot v)).
  { apply (reachable_wellFormed v). exists []. apply runs_nil. }
  assert (Hf : focusOnly (app (boot v))) by (split; reflexivity).
  destruct (uiRuns_focusOnly v _ l y H Hb Hf) as [(Hsh & _) [U1 U2]].
  split; [exact U1|].
  intros Hin. unfold controls in Hin.
  destruct Hsh as ([Hs|[Hs|Hs]] & [Hm|Hm] & _); rewrite Hs, Hm in Hin;
    try exact Hm; cbn in Hin;
    destruct (String.eqb_spec (completionMessage (app y)) "") as [Hc|Hc];
    cbn in Hin;
    try (now apply U2);
    repeat (destruct Hin as [Hin|Hin]; try discriminate Hin);
    try contradiction.
Qed.

Lemma only_focus_is_paused_witness :
  mode (togglePause 1700000002000
          (startTimer AppTsx 1700000001000
             (setIsInitialized true (initial AppTsx)))) = "focus".
Proof.
  refine (proj1 (only_focus_is_paused AppTsx
    [Reload 1700000000000; Start 1700000001000; TogglePause 1700000002000]
    (mkSys (togglePause 1700000002000
              (startTimer AppTsx 1700000001000
                 (setIsInitialized true (initial AppTsx)))) _) _) eq_refl).
  eapply uiRuns_cons; [reflexivity | quiet_step |].
  eapply uiRuns_cons; [reflexivity | quiet_step |].
  eapply uiRuns_cons; [reflexivity | quiet_step |].
  apply uiRuns_nil.
Defined.
